(** * infrahub_sync.adapters.utils: dotted-path lookup and identifier derivation

    Shallow embedding of [get_value] and [derive_identifier_key]
    (src/infrahub_sync/adapters/utils.py) and the properties of the
    specification that concern them. *)

From Equations Require Import Equations.
From Equations.Prop Require Import Logic.
From Stdlib Require Import List Arith Lia Bool ZArith String Ascii Permutation.
Import ListNotations.
Open Scope string_scope.
Set Warnings "-register-all".

(** ** Python values *)

(** Exceptions that can leave the two functions. *)
Inductive pyexn : Type :=
| AttributeError
| ValueError (msg : string)
| OtherError (kind : string).

(** What evaluating a Python expression does: it has a value or it raises. *)
Inductive result (A : Type) : Type :=
| Returns (a : A)
| Raises (e : pyexn).
Arguments Returns {A} a.
Arguments Raises {A} e.

(** The values a record is made of.  A [dict] keeps its items in insertion
    order; an instance of a user class carries the truth value [bool(obj)]
    gives it and, per attribute name, what reading that attribute does (a
    plain attribute returns its value, a property may raise). *)
Inductive pyval : Type :=
| PNone
| PBool (b : bool)
| PInt (z : Z)
| PStr (s : string)
| PList (elems : list pyval)
| PDict (items : list (string * pyval))
| PObj (truth : bool) (attrs : list (string * result pyval)).

Definition dict_items := list (string * pyval).

(** [not v] is [negb (truthy v)]. *)
Definition truthy (v : pyval) : bool :=
  match v with
  | PNone => false
  | PBool b => b
  | PInt z => negb (Z.eqb z 0)
  | PStr s => negb (String.eqb s "")
  | PList elems => match elems with [] => false | _ :: _ => true end
  | PDict items => match items with [] => false | _ :: _ => true end
  | PObj truth _ => truth
  end.

(** [v is None] *)
Definition is_none (v : pyval) : bool :=
  match v with PNone => true | _ => false end.

(** ** Strings *)

(** ["." in name] *)
Fixpoint contains_dot (name : string) : bool :=
  match name with
  | EmptyString => false
  | String c rest => if Ascii.eqb c "." then true else contains_dot rest
  end.

(** [name.split(".", maxsplit=1)]: a list of one or of two strings. *)
Fixpoint split_dot_once (name : string) : list string :=
  match name with
  | EmptyString => [EmptyString]
  | String c rest =>
      if Ascii.eqb c "." then [EmptyString; rest]
      else match split_dot_once rest with
           | hd :: tl => String c hd :: tl
           | [] => [String c EmptyString]
           end
  end.

(** [s.endswith(suffix)] *)
Definition endswith (s suffix : string) : bool :=
  let n := String.length s in
  let m := String.length suffix in
  if Nat.leb m n then String.eqb (substring (n - m) m s) suffix else false.

(** The number of dot-separated segments of a path. *)
Fixpoint segments (name : string) : nat :=
  match name with
  | EmptyString => 1
  | String c rest => if Ascii.eqb c "." then S (segments rest) else segments rest
  end.

(** ** Field access *)

Fixpoint assoc {A : Type} (key : string) (items : list (string * A)) : option A :=
  match items with
  | [] => None
  | (k, v) :: tl => if String.eqb k key then Some v else assoc key tl
  end.

(** [d.get(key)] *)
Definition dict_get (items : dict_items) (key : string) : pyval :=
  match assoc key items with
  | Some v => v
  | None => PNone
  end.

Section Resolver.

(** The attributes the interpreter itself gives to values of its built-in
    types ([int.real], the methods of [str] and [list], ...): a table of the
    host language, not of this repository. *)
Variable builtin_attr : pyval -> string -> option pyval.

(** [getattr(obj, name, None)]: the default replaces a missing attribute,
    that is an [AttributeError] of the lookup, and nothing else. *)
Definition getattr_default (obj : pyval) (name : string) : result pyval :=
  match obj with
  | PObj _ attrs =>
      match assoc name attrs with
      | Some (Returns v) => Returns v
      | Some (Raises AttributeError) => Returns PNone
      | Some (Raises e) => Raises e
      | None => Returns PNone
      end
  | _ =>
      match builtin_attr obj name with
      | Some v => Returns v
      | None => Returns PNone
      end
  end.

(** [obj.get(name) if isinstance(obj, dict) else getattr(obj, name, None)] *)
Definition field (obj : pyval) (name : string) : result pyval :=
  match obj with
  | PDict items => Returns (dict_get items name)
  | _ => getattr_default obj name
  end.

Lemma split_dot_once_shorter name first remaining_part :
  split_dot_once name = [first; remaining_part] ->
  String.length remaining_part < String.length name.
Proof.
  revert first. induction name as [|c rest IH]; simpl; intros first H.
  - discriminate.
  - destruct (Ascii.eqb c ".").
    + injection H as _ <-. lia.
    + destruct (split_dot_once rest) as [|hd [|hd2 tl]] eqn:E; try discriminate.
      injection H as _ <- Htl. subst tl.
      specialize (IH hd eq_refl). lia.
Qed.

(** ** [get_value] *)

(** What [first_name, remaining_part = ...] raises when the list on the right
    does not have two elements. *)
Definition unpack_error : pyexn :=
  ValueError "not enough values to unpack (expected 2, got 1)".

Equations? get_value (obj : pyval) (name : string) : result pyval
  by wf (String.length name) lt :=
get_value obj name with contains_dot name := {
  | false => field obj name
  | true with inspect (split_dot_once name) := {
    | exist _ (first_name :: remaining_part :: nil) Hsplit with field obj first_name := {
      | Raises e => Raises e
      | Returns sub_obj =>
          if negb (truthy sub_obj) then Returns PNone
          else get_value sub_obj remaining_part }
    | exist _ _ _ => Raises unpack_error } }.
Proof.
  eapply split_dot_once_shorter; eassumption.
Qed.

(** The frames [get_value] puts on the stack: one for the call itself and one
    for every call it goes on to make. *)
Equations? get_value_depth (obj : pyval) (name : string) : nat
  by wf (String.length name) lt :=
get_value_depth obj name with contains_dot name := {
  | false => 1
  | true with inspect (split_dot_once name) := {
    | exist _ (first_name :: remaining_part :: nil) Hsplit with field obj first_name := {
      | Raises e => 1
      | Returns sub_obj =>
          if negb (truthy sub_obj) then 1
          else S (get_value_depth sub_obj remaining_part) }
    | exist _ _ _ => 1 } }.
Proof.
  eapply split_dot_once_shorter; eassumption.
Qed.

(** [calls (obj, name) (sub_obj, remaining_part)]: the activation of
    [get_value] on the left makes the recursive call on the right. *)
Inductive calls : pyval * string -> pyval * string -> Prop :=
| calls_intro obj name first_name remaining_part sub_obj :
    contains_dot name = true ->
    split_dot_once name = [first_name; remaining_part] ->
    field obj first_name = Returns sub_obj ->
    truthy sub_obj = true ->
    calls (obj, name) (sub_obj, remaining_part).

(** The activations a call of [get_value] leads to, itself included. *)
Inductive reaches : pyval * string -> pyval * string -> Prop :=
| reaches_here a : reaches a a
| reaches_call a b c : calls a b -> reaches b c -> reaches a c.

(** The leading segment of a path: the whole path when it has no dot. *)
Definition leading (name : string) : string :=
  hd name (split_dot_once name).

(** [obj] has no field called [name]: the key is not in the dict, or the
    lookup of the attribute ends in [AttributeError]. *)
Definition lacks (obj : pyval) (name : string) : bool :=
  match obj with
  | PDict items =>
      match assoc name items with None => true | Some _ => false end
  | PObj _ attrs =>
      match assoc name attrs with
      | None | Some (Raises AttributeError) => true
      | Some _ => false
      end
  | _ =>
      match builtin_attr obj name with None => true | Some _ => false end
  end.

End Resolver.

(** A table without entries, for records made of dicts and instances. *)
Definition bare_builtins : pyval -> string -> option pyval := fun _ _ => None.

(** ** [derive_identifier_key] *)

(** The test of the loop body: [key.endswith("_id") and value]. *)
Definition is_candidate (entry : string * pyval) : bool :=
  let '(key, value) := entry in endswith key "_id" && truthy value.

(** [for key, value in obj.items(): if ...: obj_id = value; break],
    started with [obj_id] as it stands before the loop. *)
Fixpoint scan_items (items : dict_items) (obj_id : pyval) : pyval :=
  match items with
  | [] => obj_id
  | (key, value) :: tl =>
      if endswith key "_id" && truthy value then value
      else scan_items tl obj_id
  end.

Definition no_identifier_msg : string :=
  "No suitable identifier key found in object".

Definition derive_identifier_key (obj : dict_items) : result pyval :=
  let obj_id := dict_get obj "id" in
  let obj_id := if is_none obj_id then scan_items obj obj_id else obj_id in
  if is_none obj_id then Raises (ValueError no_identifier_msg)
  else Returns obj_id.

(** ** The two functions over a heap

    Python passes records by reference: the dict a caller hands over is the
    very object the function works on, and a value found inside it is shared
    with it.  Here records live in a heap, a computation takes the heap and
    gives it back with its result, and the two functions are written again
    over it, statement by statement, so that what they do to their argument
    can be stated. *)

Module Store.

Definition loc := nat.

Inductive val : Type :=
| VNone
| VBool (b : bool)
| VInt (z : Z)
| VStr (s : string)
| VRef (l : loc).

(** What a reference points to. *)
Inductive cell : Type :=
| CList (elems : list val)
| CDict (items : list (string * val))
| CObj (truth : bool) (attrs : list (string * result val)).

Definition heap := loc -> cell.

(** A computation: from the heap to a result, or an exception, and the heap
    it leaves. *)
Definition Py (A : Type) : Type := heap -> result A * heap.

Definition ret {A} (a : A) : Py A := fun h => (Returns a, h).

Definition raise {A} (e : pyexn) : Py A := fun h => (Raises e, h).

Definition bind {A B} (m : Py A) (k : A -> Py B) : Py B :=
  fun h =>
    match m h with
    | (Returns a, h') => k a h'
    | (Raises e, h') => (Raises e, h')
    end.

Notation "x <- m ;; k" := (bind m (fun x => k))
  (at level 61, m at next level, right associativity).

(** Reading the object behind a reference. *)
Definition deref (l : loc) : Py cell := fun h => (Returns (h l), h).

(** Replacing the object behind a reference, as [d[k] = v] or [o.x = v]
    would: the one operation that changes the heap. *)
Definition assign (l : loc) (c : cell) : Py unit :=
  fun h => (Returns tt, fun l' => if Nat.eqb l' l then c else h l').

Definition truthy (v : val) : Py bool :=
  match v with
  | VNone => ret false
  | VBool b => ret b
  | VInt z => ret (negb (Z.eqb z 0))
  | VStr s => ret (negb (String.eqb s ""))
  | VRef l =>
      c <- deref l ;;
      ret match c with
          | CList elems => match elems with [] => false | _ :: _ => true end
          | CDict items => match items with [] => false | _ :: _ => true end
          | CObj truth _ => truth
          end
  end.

Definition is_none (v : val) : bool :=
  match v with VNone => true | _ => false end.

Definition dict_get (items : list (string * val)) (key : string) : val :=
  match assoc key items with
  | Some v => v
  | None => VNone
  end.

Section Resolver.

Variable builtin_attr : val -> string -> option val.

Definition getattr_default (obj : val) (c : option cell) (name : string)
  : Py val :=
  match c with
  | Some (CObj _ attrs) =>
      match assoc name attrs with
      | Some (Returns v) => ret v
      | Some (Raises AttributeError) => ret VNone
      | Some (Raises e) => raise e
      | None => ret VNone
      end
  | _ =>
      match builtin_attr obj name with
      | Some v => ret v
      | None => ret VNone
      end
  end.

Definition field (obj : val) (name : string) : Py val :=
  match obj with
  | VRef l =>
      c <- deref l ;;
      match c with
      | CDict items => ret (dict_get items name)
      | _ => getattr_default obj (Some c) name
      end
  | _ => getattr_default obj None name
  end.

Equations? get_value (obj : val) (name : string) : Py val
  by wf (String.length name) lt :=
get_value obj name with contains_dot name := {
  | false => field obj name
  | true with inspect (split_dot_once name) := {
    | exist _ (first_name :: remaining_part :: nil) Hsplit =>
        sub_obj <- field obj first_name ;;
        falsy <- (t <- truthy sub_obj ;; ret (negb t)) ;;
        if falsy then ret VNone
        else get_value sub_obj remaining_part
    | exist _ _ _ => raise unpack_error } }.
Proof.
  eapply split_dot_once_shorter; eassumption.
Qed.

End Resolver.

(** [obj.get] and [obj.items] are those of a dict. *)
Definition as_dict (obj : val) : Py (list (string * val)) :=
  match obj with
  | VRef l =>
      c <- deref l ;;
      match c with
      | CDict items => ret items
      | _ => raise AttributeError
      end
  | _ => raise AttributeError
  end.

Fixpoint scan_items (items : list (string * val)) (obj_id : val) : Py val :=
  match items with
  | [] => ret obj_id
  | (key, value) :: tl =>
      if endswith key "_id" then
        t <- truthy value ;;
        if t then ret value else scan_items tl obj_id
      else scan_items tl obj_id
  end.

Definition derive_identifier_key (obj : val) : Py val :=
  obj_id <- (items <- as_dict obj ;; ret (dict_get items "id")) ;;
  obj_id <- (if is_none obj_id
             then items <- as_dict obj ;; scan_items items obj_id
             else ret obj_id) ;;
  if is_none obj_id then raise (ValueError no_identifier_msg)
  else ret obj_id.


(** *** Heap values and the values they stand for *)

Inductive result_rel {A B} (R : A -> B -> Prop) : result A -> result B -> Prop :=
| rel_returns a b : R a b -> result_rel R (Returns a) (Returns b)
| rel_raises e : result_rel R (Raises e) (Raises e).

Inductive entry_rel {A B} (R : A -> B -> Prop)
  : string * A -> string * B -> Prop :=
| rel_entry key a b : R a b -> entry_rel R (key, a) (key, b).

(** [models h v t]: in the heap [h], following the references of [v] gives
    the value [t]. *)
Inductive models (h : heap) : val -> pyval -> Prop :=
| models_none : models h VNone PNone
| models_bool b : models h (VBool b) (PBool b)
| models_int z : models h (VInt z) (PInt z)
| models_str s : models h (VStr s) (PStr s)
| models_list l elems elems' :
    h l = CList elems ->
    Forall2 (models h) elems elems' ->
    models h (VRef l) (PList elems')
| models_dict l items items' :
    h l = CDict items ->
    Forall2 (entry_rel (models h)) items items' ->
    models h (VRef l) (PDict items')
| models_obj l truth attrs attrs' :
    h l = CObj truth attrs ->
    Forall2 (entry_rel (result_rel (models h))) attrs attrs' ->
    models h (VRef l) (PObj truth attrs').

End Store.

(** ** The commands of the command line

    [print_error_and_abort], [diff_cmd], [sync_cmd] and [generate] of
    src/infrahub-sync/infrahub_sync/cli.py.  What they call outside the file
    (typer, rich, infrahub_sdk, the helpers of [infrahub_sync.utils] and the
    objects these return) is a [host]: each call takes the state of the world
    and gives an answer and the world after it. *)

Module Cli.

(** An external call returns or raises. *)
Inductive answer (exc A : Type) : Type :=
| Gives (a : A)
| Throws (e : exc).
Arguments Gives {exc A} a.
Arguments Throws {exc A} e.

Record host : Type := {
  world : Type;
  (** exceptions of the libraries, with the two classes the file catches
      and [str] *)
  exc : Type;
  is_ValueError : exc -> bool;
  is_ServerNotResponsiveError : exc -> bool;
  str_exc : exc -> string;
  (** [SyncInstance]: [.destination.name], [.destination.settings],
      [.source.name], [.source.settings] *)
  SyncInstance : Type;
  destination_name : SyncInstance -> string;
  destination_settings : SyncInstance -> pyval;
  source_name : SyncInstance -> string;
  source_settings : SyncInstance -> pyval;
  Potenda : Type;
  Diff : Type;
  Time : Type;
  SdkConfig : Type;
  Client : Type;
  Schema : Type;
  Model : Type;
  (** [get_instance(name=, config_file=, directory=)]: an instance or None *)
  get_instance : option string -> option string -> option string ->
                 world -> answer exc (option SyncInstance) * world;
  (** [get_potenda_from_instance(sync_instance=, branch=, show_progress=)] *)
  get_potenda_from_instance : SyncInstance -> option string -> bool ->
                              world -> answer exc Potenda * world;
  source_load : Potenda -> world -> answer exc unit * world;
  destination_load : Potenda -> world -> answer exc unit * world;
  diff : Potenda -> world -> answer exc Diff * world;
  diff_str : Diff -> world -> answer exc string * world;
  has_diffs : Diff -> world -> answer exc bool * world;
  sync : Potenda -> Diff -> world -> answer exc unit * world;
  timer : world -> answer exc Time * world;
  (** the text of [end_synctime - start_synctime] in an f-string *)
  elapsed : Time -> Time -> string;
  (** [Config(default_branch=, api_token=)] *)
  Config : pyval -> pyval -> world -> answer exc SdkConfig * world;
  (** [InfrahubClientSync(address=, config=)] *)
  InfrahubClientSync : pyval -> SdkConfig -> world -> answer exc Client * world;
  (** [client.schema.all()] *)
  schema_all : Client -> world -> answer exc Schema * world;
  find_missing_schema_model : SyncInstance -> Schema ->
                              world -> answer exc (list Model) * world;
  (** the text of the list of missing models in an f-string *)
  show_models : list Model -> string;
  (** [render_adapter(sync_instance=, schema=)]: pairs of a template and an
      output path, as they print *)
  render_adapter : SyncInstance -> Schema ->
                   world -> answer exc (list (string * string)) * world
}.

(** The calls a command makes outside the file. *)
Inductive operation : Type :=
| GetInstance (name config_file directory : option string)
| GetPotenda (branch : option string) (show_progress : bool)
| SourceLoad
| DestinationLoad
| MakeDiff
| DiffStr
| HasDiffs
| Sync
| Timer
| MakeConfig (default_branch api_token : pyval)
| MakeClient (address : pyval)
| SchemaAll
| FindMissingSchemaModel
| RenderAdapter.

(** What a command does that can be seen from outside, in order. *)
Inductive event : Type :=
| Console (text : string) (style : option string)   (* console.print *)
| Stdout (text : string)                            (* print *)
| Invoke (op : operation).

Section Commands.

Variable H : host.

(** How a command ends when it does not return. *)
Inductive failure : Type :=
| Abort                              (* typer.Abort *)
| UnboundLocalError (var : string)
| Raised (e : exc H).

Inductive outcome (A : Type) : Type :=
| Done (a : A)
| Failed (f : failure).
Arguments Done {A} a.
Arguments Failed {A} f.

(** A command: from the world to how it ends, the world it leaves and the
    events it produced. *)
Definition Cmd (A : Type) : Type :=
  world H -> outcome A * world H * list event.

Definition ret {A} (a : A) : Cmd A := fun w => (Done a, w, []).

Definition raise {A} (f : failure) : Cmd A := fun w => (Failed f, w, []).

Definition bind {A B} (m : Cmd A) (k : A -> Cmd B) : Cmd B :=
  fun w =>
    match m w with
    | (Done a, w1, t1) =>
        let '(r, w2, t2) := k a w1 in (r, w2, (t1 ++ t2)%list)
    | (Failed f, w1, t1) => (Failed f, w1, t1)
    end.

Notation "x <- m ;; k" := (bind m (fun x => k))
  (at level 61, m at next level, right associativity).
Notation "m ;; k" := (bind m (fun _ => k))
  (at level 61, right associativity).

(** A call outside the file. *)
Definition call {A} (op : operation) (f : world H -> answer (exc H) A * world H)
  : Cmd A :=
  fun w =>
    match f w with
    | (Gives a, w1) => (Done a, w1, [Invoke op])
    | (Throws e, w1) => (Failed (Raised e), w1, [Invoke op])
    end.

(** [try: m except <class> as exc: handler(exc)] *)
Definition try_except {A} (m : Cmd A) (caught : exc H -> bool)
  (handler : exc H -> Cmd A) : Cmd A :=
  fun w =>
    match m w with
    | (Failed (Raised e), w1, t1) =>
        if caught e then
          let '(r, w2, t2) := handler e w1 in (r, w2, (t1 ++ t2)%list)
        else (Failed (Raised e), w1, t1)
    | other => other
    end.

Definition console_print (text : string) (style : option string) : Cmd unit :=
  fun w => (Done tt, w, [Console text style]).

Definition stdout_print (text : string) : Cmd unit :=
  fun w => (Done tt, w, [Stdout text]).

(** Reading a local variable: it is bound or the read fails. *)
Definition local {A} (var : string) (slot : option A) : Cmd A :=
  match slot with
  | Some a => ret a
  | None => raise (UnboundLocalError var)
  end.

(** [bool(x)] for an option of the command line: a string or None. *)
Definition given (x : option string) : bool :=
  match x with
  | Some s => negb (String.eqb s "")
  | None => false
  end.

Definition option_value (x : option string) : pyval :=
  match x with
  | Some s => PStr s
  | None => PNone
  end.

(** An option of the command line inside an f-string. *)
Definition option_text (x : option string) : string :=
  match x with
  | Some s => s
  | None => "None"
  end.

Definition print_error_and_abort {A} (message : string) : Cmd A :=
  console_print ("Error: " ++ message) (Some "bold red") ;;
  raise Abort.

(** [if sum([bool(name), bool(config_file)]) != 1: print_error_and_abort(..)] *)
Definition exactly_one (name config_file : option string) (message : string)
  : Cmd unit :=
  if negb (Nat.eqb (Nat.b2n (given name) + Nat.b2n (given config_file)) 1)
  then print_error_and_abort message
  else ret tt.

(** The lines the three commands share, up to the loading of both sides. *)
Definition load_instance (name config_file directory : option string)
  (not_found : string) : Cmd (SyncInstance H) :=
  sync_instance <- call (GetInstance name config_file directory)
                     (get_instance H name config_file directory) ;;
  match sync_instance with
  | None => print_error_and_abort not_found
  | Some instance => ret instance
  end.

Definition load_both (sync_instance : SyncInstance H) (branch : option string)
  (show_progress : bool) : Cmd (Potenda H) :=
  ptd <- try_except
           (call (GetPotenda branch show_progress)
              (get_potenda_from_instance H sync_instance branch show_progress))
           (is_ValueError H)
           (fun exc =>
              print_error_and_abort
                ("Failed to initialize the Sync Instance: " ++ str_exc H exc)) ;;
  try_except
    (call SourceLoad (source_load H ptd) ;;
     call DestinationLoad (destination_load H ptd))
    (is_ValueError H)
    (fun exc => print_error_and_abort (str_exc H exc)) ;;
  ret ptd.

Definition diff_cmd (name config_file directory branch : option string)
  (show_progress : bool) : Cmd unit :=
  exactly_one name config_file
    "Please specify exactly one of 'name' or 'config-file'." ;;
  sync_instance <- load_instance name config_file directory
                     "Failed to load sync instance." ;;
  ptd <- load_both sync_instance branch show_progress ;;
  mydiff <- call MakeDiff (diff H ptd) ;;
  text <- call DiffStr (diff_str H mydiff) ;;
  stdout_print text.

Definition sync_cmd (name config_file directory branch : option string)
  (diff_opt show_progress : bool) : Cmd unit :=
  exactly_one name config_file
    "Please specify exactly one of 'name' or 'config-file'." ;;
  sync_instance <- load_instance name config_file directory
                     "Failed to load sync instance." ;;
  ptd <- load_both sync_instance branch show_progress ;;
  mydiff <- call MakeDiff (diff H ptd) ;;
  differs <- call HasDiffs (has_diffs H mydiff) ;;
  if differs then
    (if diff_opt then
       text <- call DiffStr (diff_str H mydiff) ;; stdout_print text
     else ret tt) ;;
    start_synctime <- call Timer (timer H) ;;
    call Sync (sync H ptd mydiff) ;;
    end_synctime <- call Timer (timer H) ;;
    console_print
      ("Sync: Completed in " ++ elapsed H start_synctime end_synctime ++ " sec")
      None
  else console_print "No difference found. Nothing to sync" None.

(** The local variables of [generate] that are not bound on every path. *)
Record locals : Type := {
  infrahub_address : option pyval;
  infrahub_token : option pyval;
  infrahub_branch : option pyval;
  sdk_config : option (SdkConfig H)
}.

Definition unbound : locals :=
  {| infrahub_address := None; infrahub_token := None;
     infrahub_branch := None; sdk_config := None |}.

(** The body of [if settings and isinstance(settings, dict):], the same for
    the destination and for the source: the three [get] and the choice of
    the branch. *)
Definition read_settings (settings : dict_items) (branch : option string)
  : locals :=
  let address := dict_get settings "url" in
  let token := dict_get settings "token" in
  let from_settings := dict_get settings "branch" in
  let chosen :=
    if negb (truthy from_settings) && given branch then option_value branch
    else if negb (truthy from_settings) && negb (given branch) then PStr "main"
    else from_settings in
  {| infrahub_address := Some address; infrahub_token := Some token;
     infrahub_branch := Some chosen; sdk_config := None |}.

(** [settings and isinstance(settings, dict)]: the items of the dict when
    the test holds. *)
Definition usable (settings : pyval) : option dict_items :=
  match settings with
  | PDict items => if truthy settings then Some items else None
  | _ => None
  end.

(** [sdk_config = Config(default_branch=infrahub_branch,
    api_token=infrahub_token)] *)
Definition make_config (vars : locals) : Cmd locals :=
  default_branch <- local "infrahub_branch" (infrahub_branch vars) ;;
  api_token <- local "infrahub_token" (infrahub_token vars) ;;
  config <- call (MakeConfig default_branch api_token)
              (Config H default_branch api_token) ;;
  ret {| infrahub_address := infrahub_address vars;
         infrahub_token := infrahub_token vars;
         infrahub_branch := infrahub_branch vars;
         sdk_config := Some config |}.

Fixpoint print_rendered (rendered_files : list (string * string)) : Cmd unit :=
  match rendered_files with
  | [] => ret tt
  | (template, output_path) :: rest =>
      console_print
        ("Rendered template " ++ template ++ " to " ++ output_path) None ;;
      print_rendered rest
  end.

Definition generate (name config_file directory branch : option string)
  : Cmd unit :=
  exactly_one name config_file
    "Please specify exactly one of 'name' or 'config_file'." ;;
  sync_instance <- load_instance name config_file directory
                     ("Unable to find the sync " ++ option_text name ++
                      ". Use the list command to see the sync available") ;;
  vars <-
    (if String.eqb (destination_name H sync_instance) "infrahub" then
       (* [Config] is called inside the [if] on the settings *)
       match usable (destination_settings H sync_instance) with
       | Some settings => make_config (read_settings settings branch)
       | None => ret unbound
       end
     else if String.eqb (source_name H sync_instance) "infrahub" then
       (* [Config] is called after the [if] on the settings *)
       make_config
         match usable (source_settings H sync_instance) with
         | Some settings => read_settings settings branch
         | None => unbound
         end
     else ret unbound) ;;
  address <- local "infrahub_address" (infrahub_address vars) ;;
  config <- local "sdk_config" (sdk_config vars) ;;
  client <- call (MakeClient address) (InfrahubClientSync H address config) ;;
  schema <- try_except (call SchemaAll (schema_all H client))
              (is_ServerNotResponsiveError H)
              (fun exc => print_error_and_abort (str_exc H exc)) ;;
  missing_schema_models <- call FindMissingSchemaModel
                             (find_missing_schema_model H sync_instance schema) ;;
  match missing_schema_models with
  | _ :: _ =>
      print_error_and_abort
        ("One or more model model are not present in the Schema - " ++
         show_models H missing_schema_models)
  | [] =>
      rendered_files <- call RenderAdapter
                          (render_adapter H sync_instance schema) ;;
      print_rendered rendered_files
  end.

End Commands.

Arguments Done {H A} a.
Arguments Failed {H A} f.
Arguments Abort {H}.
Arguments UnboundLocalError {H} var.
Arguments Raised {H} e.

(** The line [print_error_and_abort(message)] prints. *)
Definition error_line (message : string) : event :=
  Console ("Error: " ++ message) (Some "bold red").

Definition no_difference : event :=
  Console "No difference found. Nothing to sync" None.

(** A run in which an error line and Abort go together: if it ends in Abort
    the last event is an error line, and if a line in bold red was printed
    it ends in Abort. *)
Definition announced {H A} (run : outcome H A * world H * list event) : Prop :=
  let '(r, _, trace) := run in
  (r = Failed Abort ->
   exists before message, trace = (before ++ [error_line message])%list) /\
  ((exists text, In (Console text (Some "bold red")) trace) ->
   r = Failed Abort).

(** The line [generate] prints for a rendered file. *)
Definition rendered_line (file : string * string) : event :=
  Console ("Rendered template " ++ fst file ++ " to " ++ snd file) None.

(** *** A host to run the commands on

    The world counts the calls made.  [get_instance] knows four syncs by
    name: "lab" (destination infrahub, with settings), "bare" (destination
    infrahub, empty settings), "export" (source infrahub, no settings) and
    "peers" (no infrahub side).  The branch given on the command line is
    kept as the Potenda object: loading the source fails with a ValueError
    on "broken", and there are differences on "changed". *)

Definition demo_instance : Type := (string * pyval) * (string * pyval).

Definition demo_sync (name : option string) : option demo_instance :=
  match name with
  | Some sync =>
      if String.eqb sync "lab" then
        Some (("infrahub", PDict [("url", PStr "http://localhost:8000")]),
              ("netbox", PNone))
      else if String.eqb sync "bare" then
        Some (("infrahub", PDict []), ("infrahub", PDict [("url", PStr "x")]))
      else if String.eqb sync "export" then
        Some (("netbox", PNone), ("infrahub", PNone))
      else if String.eqb sync "peers" then
        Some (("peeringmanager", PNone), ("netbox", PNone))
      else None
  | None => None
  end.

Definition demo_host : host :=
  {| world := nat;
     exc := string;
     is_ValueError := fun e => String.eqb e "ValueError";
     is_ServerNotResponsiveError :=
       fun e => String.eqb e "ServerNotResponsiveError";
     str_exc := fun e => e;
     SyncInstance := demo_instance;
     destination_name := fun i => fst (fst i);
     destination_settings := fun i => snd (fst i);
     source_name := fun i => fst (snd i);
     source_settings := fun i => snd (snd i);
     Potenda := option string;
     Diff := bool;
     Time := nat;
     SdkConfig := pyval * pyval;
     Client := pyval;
     Schema := unit;
     Model := string;
     get_instance := fun name _ _ w => (Gives (demo_sync name), S w);
     get_potenda_from_instance := fun _ branch _ w => (Gives branch, S w);
     source_load :=
       fun ptd w =>
         match ptd with
         | Some branch =>
             if String.eqb branch "broken" then (Throws "ValueError", S w)
             else (Gives tt, S w)
         | None => (Gives tt, S w)
         end;
     destination_load := fun _ w => (Gives tt, S w);
     diff :=
       fun ptd w =>
         match ptd with
         | Some branch => (Gives (String.eqb branch "changed"), S w)
         | None => (Gives false, S w)
         end;
     diff_str := fun d w => (Gives (if d then "+ device r1" else ""), S w);
     has_diffs := fun d w => (Gives d, S w);
     sync := fun _ _ w => (Gives tt, S w);
     timer := fun w => (Gives w, S w);
     elapsed := fun _ _ => "0.5";
     Config := fun default_branch api_token w =>
                 (Gives (default_branch, api_token), S w);
     InfrahubClientSync := fun address _ w => (Gives address, S w);
     schema_all := fun _ w => (Gives tt, S w);
     find_missing_schema_model := fun _ _ w => (Gives [], S w);
     show_models := fun models => String.concat ", " models;
     render_adapter :=
       fun _ _ w => (Gives [("adapter.j2", "lab/adapter.py")], S w) |}.

End Cli.

(** * Properties *)

(** ** Paths *)

Lemma contains_dot_false_split name :
  contains_dot name = false -> split_dot_once name = [name].
Proof.
  induction name as [|c rest IH]; simpl; [reflexivity|].
  destruct (Ascii.eqb c "."); [discriminate|].
  intros H. rewrite (IH H). reflexivity.
Qed.

Lemma contains_dot_true_split name :
  contains_dot name = true ->
  exists first_name remaining_part,
    split_dot_once name = [first_name; remaining_part] /\
    name = first_name ++ "." ++ remaining_part /\
    contains_dot first_name = false.
Proof.
  induction name as [|c rest IH]; simpl; [discriminate|].
  destruct (Ascii.eqb c ".") eqn:Ec.
  - intros _. exists "", rest. apply Ascii.eqb_eq in Ec. subst c.
    repeat split.
  - intros H. destruct (IH H) as (f & r & Hs & Hn & Hf).
    exists (String c f), r. rewrite Hs. simpl. rewrite Ec.
    repeat split; [now rewrite Hn | exact Hf].
Qed.

Lemma split_two_contains_dot name first_name remaining_part :
  split_dot_once name = [first_name; remaining_part] ->
  contains_dot name = true.
Proof.
  destruct (contains_dot name) eqn:E; [reflexivity|].
  rewrite (contains_dot_false_split _ E). discriminate.
Qed.

Lemma segments_no_dot name : contains_dot name = false -> segments name = 1.
Proof.
  induction name as [|c rest IH]; simpl; [reflexivity|].
  destruct (Ascii.eqb c "."); [discriminate | exact IH].
Qed.

Lemma segments_split name first_name remaining_part :
  split_dot_once name = [first_name; remaining_part] ->
  segments name = S (segments remaining_part).
Proof.
  revert first_name. induction name as [|c rest IH]; simpl; intros f H.
  - discriminate.
  - destruct (Ascii.eqb c ".").
    + injection H as _ <-. reflexivity.
    + destruct (split_dot_once rest) as [|hd [|hd2 tl]] eqn:E; try discriminate.
      injection H as _ <- Htl. subst tl. exact (IH hd eq_refl).
Qed.

Lemma segments_pos name : 1 <= segments name.
Proof.
  induction name as [|c rest IH]; simpl; [lia|].
  destruct (Ascii.eqb c "."); lia.
Qed.

(** ** [get_value] *)

Section ResolverFacts.

Variable builtin_attr : pyval -> string -> option pyval.

#[local] Abbreviation get_value := (get_value builtin_attr).
#[local] Abbreviation get_value_depth := (get_value_depth builtin_attr).
#[local] Abbreviation field := (field builtin_attr).
#[local] Abbreviation calls := (calls builtin_attr).
#[local] Abbreviation reaches := (reaches builtin_attr).

(** The body of [get_value], as the source has it. *)
Lemma get_value_body obj name :
  get_value obj name =
  if negb (contains_dot name) then field obj name
  else match split_dot_once name with
       | [first_name; remaining_part] =>
           match field obj first_name with
           | Raises e => Raises e
           | Returns sub_obj =>
               if negb (truthy sub_obj) then Returns PNone
               else get_value sub_obj remaining_part
           end
       | _ => Raises unpack_error
       end.
Proof.
  funelim (get_value obj name);
    repeat match goal with
           | H : contains_dot _ = _ |- _ => rewrite H; clear H
           | H : split_dot_once ?n = _ |- context [split_dot_once ?n] => rewrite H
           | H : field _ _ = _ |- _ => rewrite H; clear H
           end; reflexivity.
Qed.

Lemma get_value_depth_body obj name :
  get_value_depth obj name =
  if negb (contains_dot name) then 1
  else match split_dot_once name with
       | [first_name; remaining_part] =>
           match field obj first_name with
           | Raises e => 1
           | Returns sub_obj =>
               if negb (truthy sub_obj) then 1
               else S (get_value_depth sub_obj remaining_part)
           end
       | _ => 1
       end.
Proof.
  funelim (get_value_depth obj name);
    repeat match goal with
           | H : contains_dot _ = _ |- _ => rewrite H; clear H
           | H : split_dot_once ?n = _ |- context [split_dot_once ?n] => rewrite H
           | H : field _ _ = _ |- _ => rewrite H; clear H
           end; reflexivity.
Qed.

Lemma get_value_last obj name :
  contains_dot name = false -> get_value obj name = field obj name.
Proof. intros H. rewrite get_value_body, H. reflexivity. Qed.

Lemma get_value_next obj name first_name remaining_part :
  split_dot_once name = [first_name; remaining_part] ->
  get_value obj name =
  match field obj first_name with
  | Raises e => Raises e
  | Returns sub_obj =>
      if truthy sub_obj then get_value sub_obj remaining_part
      else Returns PNone
  end.
Proof.
  intros H. rewrite get_value_body, (split_two_contains_dot _ _ _ H), H. simpl.
  destruct (field obj first_name) as [sub_obj|e]; [|reflexivity].
  destruct (truthy sub_obj); reflexivity.
Qed.

(** The unpacking of the split never fails: the branch is dead code. *)
Lemma get_value_unpacks name :
  contains_dot name = true ->
  exists first_name remaining_part,
    split_dot_once name = [first_name; remaining_part].
Proof.
  intros H. destruct (contains_dot_true_split _ H) as (f & r & Hs & _).
  eauto.
Qed.

Lemma calls_get_value a b :
  calls a b -> get_value (fst a) (snd a) = get_value (fst b) (snd b).
Proof.
  intros [obj name f r sub _ Hs Hf Ht]. simpl.
  rewrite (get_value_next _ _ _ _ Hs), Hf, Ht. reflexivity.
Qed.

Lemma reaches_get_value a b :
  reaches a b -> get_value (fst a) (snd a) = get_value (fst b) (snd b).
Proof.
  induction 1 as [a|a b c Hab _ IH]; [reflexivity|].
  rewrite (calls_get_value _ _ Hab). exact IH.
Qed.

(** C4: on a path of several segments, a falsy value at the leading segment
    (None, an empty dict, list or string, zero, False) ends the resolution
    with None; any other value is resolved further, with the rest of the
    path. *)
Theorem get_value_falsy_stops obj name first_name remaining_part sub_obj :
  contains_dot name = true ->
  split_dot_once name = [first_name; remaining_part] ->
  field obj first_name = Returns sub_obj ->
  get_value obj name =
  if truthy sub_obj then get_value sub_obj remaining_part else Returns PNone.
Proof.
  intros _ Hs Hf. rewrite (get_value_next _ _ _ _ Hs), Hf. reflexivity.
Qed.

(** A falsy value met at any depth of the path gives None. *)
Lemma get_value_falsy_anywhere obj name obj' name' first_name remaining_part sub_obj :
  reaches (obj, name) (obj', name') ->
  split_dot_once name' = [first_name; remaining_part] ->
  field obj' first_name = Returns sub_obj ->
  truthy sub_obj = false ->
  get_value obj name = Returns PNone.
Proof.
  intros Hr Hs Hf Ht. pose proof (reaches_get_value _ _ Hr) as E.
  simpl in E. rewrite E, (get_value_next _ _ _ _ Hs), Hf, Ht. reflexivity.
Qed.

(** C6: on a path of one segment a dict gives the value stored under that
    key, and None, an ordinary result and not an exception, when the key is
    not there; nested dicts compose, as for "location.name". *)
Theorem get_value_single_segment :
  (forall items p,
      contains_dot p = false ->
      (forall v, assoc p items = Some v -> truthy v = true ->
                 get_value (PDict items) p = Returns v) /\
      (assoc p items = None -> get_value (PDict items) p = Returns PNone)) /\
  get_value (PDict [("location", PDict [("name", PStr "DC1")])]) "location.name"
  = Returns (PStr "DC1").
Proof.
  split; [|reflexivity].
  intros items p Hp. rewrite (get_value_last _ _ Hp). simpl. unfold dict_get.
  split.
  - intros v Hv _. rewrite Hv. reflexivity.
  - intros Hv. rewrite Hv. reflexivity.
Qed.

(** C10: the last segment is not put to the truth test.  A key that is
    present gives its stored value as it is, falsy or not, on a path of one
    segment and at the end of a longer one; only a stored None gives the
    result a missing key gives. *)
Theorem get_value_last_segment_unchanged :
  (forall items p v,
      contains_dot p = false -> assoc p items = Some v ->
      get_value (PDict items) p = Returns v) /\
  (forall obj name items p v,
      reaches (obj, name) (PDict items, p) ->
      contains_dot p = false -> assoc p items = Some v ->
      get_value obj name = Returns v) /\
  (forall items items' p,
      contains_dot p = false ->
      assoc p items = Some PNone -> assoc p items' = None ->
      get_value (PDict items) p = get_value (PDict items') p) /\
  (forall items items' p v,
      contains_dot p = false ->
      assoc p items = Some v -> assoc p items' = None ->
      get_value (PDict items) p = get_value (PDict items') p -> v = PNone).
Proof.
  assert (Hlast : forall items p v,
             contains_dot p = false -> assoc p items = Some v ->
             get_value (PDict items) p = Returns v).
  { intros items p v Hp Hv. rewrite (get_value_last _ _ Hp). simpl.
    unfold dict_get. rewrite Hv. reflexivity. }
  assert (Hmiss : forall items p,
             contains_dot p = false -> assoc p items = None ->
             get_value (PDict items) p = Returns PNone).
  { intros items p Hp Hv. rewrite (get_value_last _ _ Hp). simpl.
    unfold dict_get. rewrite Hv. reflexivity. }
  repeat apply conj.
  - exact Hlast.
  - intros obj name items p v Hr Hp Hv.
    pose proof (reaches_get_value _ _ Hr) as E. simpl in E.
    rewrite E. apply Hlast; assumption.
  - intros items items' p Hp Hv Hv'.
    rewrite (Hlast _ _ _ Hp Hv), (Hmiss _ _ Hp Hv'). reflexivity.
  - intros items items' p v Hp Hv Hv' E.
    rewrite (Hlast _ _ _ Hp Hv), (Hmiss _ _ Hp Hv') in E. congruence.
Qed.

Lemma leading_no_dot name : contains_dot name = false -> leading name = name.
Proof.
  intros H. unfold leading. rewrite (contains_dot_false_split _ H). reflexivity.
Qed.

Lemma leading_split name first_name remaining_part :
  split_dot_once name = [first_name; remaining_part] ->
  leading name = first_name.
Proof. intros H. unfold leading. rewrite H. reflexivity. Qed.

Lemma lacks_field obj name :
  lacks builtin_attr obj name = true -> field obj name = Returns PNone.
Proof.
  destruct obj as [| b | z | s | elems | items | truth attrs]; simpl;
    unfold dict_get;
    try (destruct (builtin_attr _ name); [discriminate | reflexivity]).
  - destruct (assoc name items); [discriminate | reflexivity].
  - destruct (assoc name attrs) as [[v | []] |]; try discriminate; reflexivity.
Qed.

(** The only exceptions [field] lets through are those a property of an
    instance raises, [AttributeError] apart. *)
Lemma field_raises obj name e :
  field obj name = Raises e ->
  exists truth attrs,
    obj = PObj truth attrs /\
    assoc name attrs = Some (Raises e) /\ e <> AttributeError.
Proof.
  destruct obj as [| b | z | s | elems | items | truth attrs]; simpl;
    try (destruct (builtin_attr _ name); discriminate).
  - discriminate.
  - intros H. exists truth, attrs. split; [reflexivity|].
    destruct (assoc name attrs) as [[v | e'] |]; try discriminate.
    destruct e'; try discriminate; injection H as <-; split;
      (reflexivity || discriminate).
Qed.

Lemma get_value_raises_within n :
  forall obj name e,
    String.length name < n ->
    get_value obj name = Raises e ->
    exists obj' name' truth attrs,
      reaches (obj, name) (obj', name') /\
      obj' = PObj truth attrs /\
      assoc (leading name') attrs = Some (Raises e) /\
      e <> AttributeError.
Proof.
  induction n as [|n IH]; intros obj name e Hlen H; [lia|].
  destruct (contains_dot name) eqn:Hdot.
  - destruct (get_value_unpacks _ Hdot) as (f & r & Hs).
    rewrite (get_value_next _ _ _ _ Hs) in H.
    destruct (field obj f) as [sub|e'] eqn:Hf.
    + destruct (truthy sub) eqn:Ht; [|discriminate].
      pose proof (split_dot_once_shorter _ _ _ Hs) as Hshort.
      destruct (IH sub r e ltac:(lia) H) as (o' & n' & t & a & Hr & Ho & Ha & He).
      exists o', n', t, a. repeat apply conj; try assumption.
      eapply reaches_call; [|exact Hr].
      econstructor; eassumption.
    + injection H as ->.
      destruct (field_raises _ _ _ Hf) as (t & a & Ho & Ha & He).
      exists obj, name, t, a. rewrite (leading_split _ _ _ Hs).
      repeat apply conj; try assumption. constructor.
  - rewrite (get_value_last _ _ Hdot) in H.
    destruct (field_raises _ _ _ H) as (t & a & Ho & Ha & He).
    exists obj, name, t, a. rewrite (leading_no_dot _ Hdot).
    repeat apply conj; try assumption. constructor.
Qed.

(** C7: a missing field never makes [get_value] raise.  Where the walk along
    the path, at whatever depth, comes to a dict without the key or to an
    object without the attribute, the result is None; and when [get_value]
    does raise, the exception is the one a property on the path raised
    itself, other than [AttributeError]. *)
Theorem get_value_missing_field_is_none :
  (forall obj name obj' name',
      reaches (obj, name) (obj', name') ->
      lacks builtin_attr obj' (leading name') = true ->
      get_value obj name = Returns PNone) /\
  (forall obj name e,
      get_value obj name = Raises e ->
      exists obj' name' truth attrs,
        reaches (obj, name) (obj', name') /\
        obj' = PObj truth attrs /\
        assoc (leading name') attrs = Some (Raises e) /\
        e <> AttributeError).
Proof.
  split.
  - intros obj name obj' name' Hr Hl.
    pose proof (reaches_get_value _ _ Hr) as E. simpl in E. rewrite E.
    apply lacks_field in Hl.
    destruct (contains_dot name') eqn:Hdot.
    + destruct (get_value_unpacks _ Hdot) as (f & r & Hs).
      rewrite (leading_split _ _ _ Hs) in Hl.
      rewrite (get_value_next _ _ _ _ Hs), Hl. reflexivity.
    + rewrite (leading_no_dot _ Hdot) in Hl.
      rewrite (get_value_last _ _ Hdot). exact Hl.
  - intros obj name e H.
    exact (get_value_raises_within (S (String.length name)) obj name e
             (Nat.lt_succ_diag_r _) H).
Qed.

(** Induction on a path, segment by segment, the way [get_value] recurses. *)
Lemma path_ind (P : string -> Prop) :
  (forall name, contains_dot name = false -> P name) ->
  (forall name first_name remaining_part,
      split_dot_once name = [first_name; remaining_part] ->
      P remaining_part -> P name) ->
  forall name, P name.
Proof.
  intros Hlast Hnext name.
  induction name as [name IH]
    using (well_founded_induction (Wf_nat.well_founded_ltof _ String.length)).
  destruct (contains_dot name) eqn:Hdot; [|exact (Hlast _ Hdot)].
  destruct (get_value_unpacks _ Hdot) as (f & r & Hs).
  apply (Hnext _ _ _ Hs), IH. exact (split_dot_once_shorter _ _ _ Hs).
Qed.

Lemma get_value_depth_last obj name :
  contains_dot name = false -> get_value_depth obj name = 1.
Proof. intros H. rewrite get_value_depth_body, H. reflexivity. Qed.

Lemma get_value_depth_next obj name first_name remaining_part :
  split_dot_once name = [first_name; remaining_part] ->
  get_value_depth obj name =
  match field obj first_name with
  | Raises e => 1
  | Returns sub_obj =>
      if truthy sub_obj then S (get_value_depth sub_obj remaining_part) else 1
  end.
Proof.
  intros H.
  rewrite get_value_depth_body, (split_two_contains_dot _ _ _ H), H. simpl.
  destruct (field obj first_name) as [sub_obj|e]; [|reflexivity].
  destruct (truthy sub_obj); reflexivity.
Qed.

Lemma calls_drops_segment a b :
  calls a b ->
  exists first_name,
    snd a = first_name ++ "." ++ snd b /\
    contains_dot first_name = false /\
    segments (snd a) = S (segments (snd b)).
Proof.
  intros [obj name f r sub Hdot Hs _ _]. simpl.
  destruct (contains_dot_true_split _ Hdot) as (f' & r' & Hs' & Hn & Hf).
  rewrite Hs in Hs'. injection Hs' as <- <-.
  exists f. repeat apply conj; [exact Hn | exact Hf |].
  exact (segments_split _ _ _ Hs).
Qed.

Lemma calls_depth a b :
  calls a b ->
  get_value_depth (fst a) (snd a) = S (get_value_depth (fst b) (snd b)).
Proof.
  intros [obj name f r sub _ Hs Hf Ht]. simpl.
  rewrite (get_value_depth_next _ _ _ _ Hs), Hf, Ht. reflexivity.
Qed.

Lemma get_value_depth_bounds name :
  forall obj, 1 <= get_value_depth obj name <= segments name.
Proof.
  induction name as [name Hdot | name f r Hs IH] using path_ind; intros obj.
  - rewrite (get_value_depth_last _ _ Hdot), (segments_no_dot _ Hdot). lia.
  - rewrite (get_value_depth_next _ _ _ _ Hs), (segments_split _ _ _ Hs).
    pose proof (segments_pos r).
    destruct (field obj f) as [sub|e]; [|lia].
    destruct (truthy sub); [|lia].
    specialize (IH sub). lia.
Qed.

Lemma reaches_last_full_depth a b :
  reaches a b -> contains_dot (snd b) = false ->
  get_value_depth (fst a) (snd a) = segments (snd a).
Proof.
  induction 1 as [a|a b c Hab _ IH]; intros Hc.
  - rewrite (get_value_depth_last _ _ Hc), (segments_no_dot _ Hc). reflexivity.
  - rewrite (calls_depth _ _ Hab), (IH Hc).
    destruct (calls_drops_segment _ _ Hab) as (_ & _ & _ & ->). reflexivity.
Qed.

Lemma full_depth_reaches_last name :
  forall obj,
    get_value_depth obj name = segments name ->
    exists obj' name',
      reaches (obj, name) (obj', name') /\ contains_dot name' = false.
Proof.
  induction name as [name Hdot | name f r Hs IH] using path_ind; intros obj H.
  - exists obj, name. split; [constructor | exact Hdot].
  - rewrite (get_value_depth_next _ _ _ _ Hs), (segments_split _ _ _ Hs) in H.
    pose proof (segments_pos r).
    destruct (field obj f) as [sub|e] eqn:Hf; [|lia].
    destruct (truthy sub) eqn:Ht; [|lia].
    destruct (IH sub ltac:(lia)) as (o' & n' & Hr & Hn).
    exists o', n'. split; [|exact Hn].
    eapply reaches_call; [|exact Hr].
    econstructor; eauto using split_two_contains_dot.
Qed.

(** C8, amended: [get_value] terminates on every record and path.  Each recursive
    call is made on the path without its leading segment, so no chain of
    calls is infinite, and the stack holds at most as many frames as the
    path has segments: exactly that many when the walk comes to the last
    segment, fewer when a falsy value or an exception ends it before. *)
Theorem get_value_terminates :
  well_founded (fun callee caller => calls caller callee) /\
  (forall a b,
      calls a b ->
      exists first_name,
        snd a = first_name ++ "." ++ snd b /\
        contains_dot first_name = false /\
        segments (snd a) = S (segments (snd b))) /\
  (forall obj name, 1 <= get_value_depth obj name <= segments name) /\
  (forall obj name,
      get_value_depth obj name = segments name <->
      exists obj' name',
        reaches (obj, name) (obj', name') /\ contains_dot name' = false).
Proof.
  repeat apply conj.
  - apply (Wf_nat.well_founded_lt_compat _ (fun a => segments (snd a))).
    intros callee caller H.
    destruct (calls_drops_segment _ _ H) as (_ & _ & _ & ->). lia.
  - exact calls_drops_segment.
  - intros obj name. apply get_value_depth_bounds.
  - intros obj name. split.
    + apply full_depth_reaches_last.
    + intros (o' & n' & Hr & Hn).
      exact (reaches_last_full_depth _ _ Hr Hn).
Qed.

End ResolverFacts.

(** [get_value({"a": {}}, "a.b")] is None. *)
Lemma get_value_falsy_stops_witness :
  contains_dot "a.b" = true /\
  split_dot_once "a.b" = ["a"; "b"] /\
  field bare_builtins (PDict [("a", PDict [])]) "a" = Returns (PDict []) /\
  get_value bare_builtins (PDict [("a", PDict [])]) "a.b" = Returns PNone.
Proof.
  do 3 (split; [reflexivity|]).
  exact (get_value_falsy_stops bare_builtins
           (PDict [("a", PDict [])]) "a.b" "a" "b" (PDict [])
           eq_refl eq_refl eq_refl).
Defined.

(** [get_value({"name": "DC1"}, "name")] is ["DC1"], and
    [get_value({"name": "DC1"}, "site")] is None. *)
Lemma get_value_single_segment_witness :
  contains_dot "name" = false /\
  assoc "name" [("name", PStr "DC1")] = Some (PStr "DC1") /\
  truthy (PStr "DC1") = true /\
  get_value bare_builtins (PDict [("name", PStr "DC1")]) "name"
  = Returns (PStr "DC1") /\
  contains_dot "site" = false /\
  assoc "site" [("name", PStr "DC1")] = None /\
  get_value bare_builtins (PDict [("name", PStr "DC1")]) "site" = Returns PNone.
Proof.
  do 3 (split; [reflexivity|]).
  split.
  { exact (proj1 (proj1 (get_value_single_segment bare_builtins)
                    [("name", PStr "DC1")] "name" eq_refl)
             (PStr "DC1") eq_refl eq_refl). }
  do 2 (split; [reflexivity|]).
  exact (proj2 (proj1 (get_value_single_segment bare_builtins)
                  [("name", PStr "DC1")] "site" eq_refl) eq_refl).
Defined.

(** A stored 0, an empty string and an empty dict come back as they are,
    alone and at the end of "a.b"; a stored None is what a missing key
    gives. *)
Lemma get_value_last_segment_unchanged_witness :
  (truthy (PInt 0) = false /\
   get_value bare_builtins (PDict [("k", PInt 0)]) "k" = Returns (PInt 0)) /\
  (truthy (PStr "") = false /\
   get_value bare_builtins (PDict [("k", PStr "")]) "k" = Returns (PStr "")) /\
  (truthy (PDict []) = false /\
   get_value bare_builtins (PDict [("k", PDict [])]) "k" = Returns (PDict [])) /\
  get_value bare_builtins (PDict [("a", PDict [("b", PInt 0)])]) "a.b"
  = Returns (PInt 0) /\
  get_value bare_builtins (PDict [("k", PNone)]) "k"
  = get_value bare_builtins (PDict []) "k".
Proof.
  pose proof (get_value_last_segment_unchanged bare_builtins)
    as (Hlast & Hdeep & Hnone & _).
  split; [split; [reflexivity|]|].
  { exact (Hlast [("k", PInt 0)] "k" (PInt 0) eq_refl eq_refl). }
  split; [split; [reflexivity|]|].
  { exact (Hlast [("k", PStr "")] "k" (PStr "") eq_refl eq_refl). }
  split; [split; [reflexivity|]|].
  { exact (Hlast [("k", PDict [])] "k" (PDict []) eq_refl eq_refl). }
  split.
  - apply (Hdeep _ _ [("b", PInt 0)] "b"); [|reflexivity|reflexivity].
    eapply reaches_call; [|apply reaches_here].
    apply (calls_intro _ _ "a.b" "a" "b"); reflexivity.
  - exact (Hnone [("k", PNone)] [] "k" eq_refl eq_refl eq_refl).
Defined.

(** A key missing one level down, an attribute missing on an instance, and
    an attribute whose lookup ends in [AttributeError]: None each time. *)
Lemma get_value_missing_field_is_none_witness :
  get_value bare_builtins (PDict [("a", PDict [("b", PInt 1)])]) "a.c.d"
  = Returns PNone /\
  get_value bare_builtins (PObj true [("x", Returns (PInt 1))]) "y"
  = Returns PNone /\
  get_value bare_builtins (PObj true [("x", Raises AttributeError)]) "x"
  = Returns PNone.
Proof.
  pose proof (proj1 (get_value_missing_field_is_none bare_builtins)) as H.
  split; [|split].
  - apply (H _ _ (PDict [("b", PInt 1)]) "c.d"); [|reflexivity].
    eapply reaches_call; [|apply reaches_here].
    apply (calls_intro _ _ "a.c.d" "a" "c.d"); reflexivity.
  - apply (H _ _ (PObj true [("x", Returns (PInt 1))]) "y");
      [apply reaches_here | reflexivity].
  - apply (H _ _ (PObj true [("x", Raises AttributeError)]) "x");
      [apply reaches_here | reflexivity].
Defined.

(** C8 as first stated fails on [{"a": {}}]: the path "a.b" has two segments
    and the call takes a single frame. *)
Lemma get_value_depth_below_segments :
  segments "a.b" = 2 /\
  get_value_depth bare_builtins (PDict [("a", PDict [])]) "a.b" = 1.
Proof. split; reflexivity. Qed.

(** ** [derive_identifier_key] *)

Lemma truthy_not_none v : truthy v = true -> is_none v = false.
Proof. destruct v; simpl; congruence. Qed.

Lemma is_none_true v : is_none v = true -> v = PNone.
Proof. destruct v; simpl; congruence. Qed.

Lemma assoc_In {A} key (items : list (string * A)) v :
  assoc key items = Some v -> In (key, v) items.
Proof.
  induction items as [|[k x] tl IH]; simpl; [discriminate|].
  destruct (String.eqb k key) eqn:E.
  - apply String.eqb_eq in E. intros [= ->]. left. congruence.
  - intros H. right. exact (IH H).
Qed.

Lemma assoc_app_none {A} key (before after : list (string * A)) :
  assoc key before = None ->
  assoc key (before ++ after)%list = assoc key after.
Proof.
  induction before as [|[k x] tl IH]; simpl; [reflexivity|].
  destruct (String.eqb k key); [discriminate | exact IH].
Qed.

(** The loop leaves [obj_id] alone when no entry passes its test. *)
Lemma scan_items_none items obj_id :
  existsb is_candidate items = false -> scan_items items obj_id = obj_id.
Proof.
  induction items as [|[key value] tl IH]; simpl; [reflexivity|].
  destruct (endswith key "_id" && truthy value); [discriminate | exact IH].
Qed.

(** The loop stops at the first entry that passes its test. *)
Lemma scan_items_first before key value after obj_id :
  existsb is_candidate before = false ->
  is_candidate (key, value) = true ->
  scan_items (before ++ (key, value) :: after)%list obj_id = value.
Proof.
  intros Hb Hc. induction before as [|[k v] tl IH]; simpl in *.
  - rewrite Hc. reflexivity.
  - destruct (endswith k "_id" && truthy v); [discriminate | exact (IH Hb)].
Qed.

(** What the loop finds is a truthy value of the dict, or nothing. *)
Lemma scan_items_found items :
  existsb is_candidate items = true ->
  exists key value,
    scan_items items PNone = value /\ In (key, value) items /\
    truthy value = true.
Proof.
  induction items as [|[key value] tl IH]; simpl; [discriminate|].
  destruct (endswith key "_id" && truthy value) eqn:E.
  - intros _. exists key, value. apply andb_prop in E. intuition.
  - intros H. destruct (IH H) as (k & v & Hs & Hin & Ht).
    exists k, v. intuition.
Qed.

Lemma derive_id_absent obj :
  is_none (dict_get obj "id") = true ->
  derive_identifier_key obj =
  let obj_id := scan_items obj PNone in
  if is_none obj_id then Raises (ValueError no_identifier_msg)
  else Returns obj_id.
Proof.
  intros H. unfold derive_identifier_key.
  rewrite (is_none_true _ H). reflexivity.
Qed.

Lemma dict_get_absent obj key :
  assoc key obj = None \/ assoc key obj = Some PNone ->
  dict_get obj key = PNone.
Proof. unfold dict_get. intros [-> | ->]; reflexivity. Qed.

(** C2: with no [id] entry, or with None stored under [id], the result is
    the value of the first entry, in the order of the dict, whose key ends
    with [_id] and whose value is truthy; the entries before it, those with
    an [_id] key and a falsy value among them, are passed over. *)
Theorem derive_first_truthy_suffix obj before key value after :
  obj = (before ++ (key, value) :: after)%list ->
  assoc "id" obj = None \/ assoc "id" obj = Some PNone ->
  existsb is_candidate before = false ->
  endswith key "_id" = true ->
  truthy value = true ->
  derive_identifier_key obj = Returns value.
Proof.
  intros -> Hid Hb Hk Hv.
  rewrite derive_id_absent by (rewrite (dict_get_absent _ _ Hid); reflexivity).
  cbv zeta. rewrite scan_items_first; [| exact Hb | simpl; now rewrite Hk, Hv].
  rewrite (truthy_not_none _ Hv). reflexivity.
Qed.

(** [derive_identifier_key({"other_id": None, "device_id": "X2"})] is "X2". *)
Lemma derive_first_truthy_suffix_witness :
  derive_identifier_key [("other_id", PNone); ("device_id", PStr "X2")]
  = Returns (PStr "X2").
Proof.
  exact (derive_first_truthy_suffix
           [("other_id", PNone); ("device_id", PStr "X2")]
           [("other_id", PNone)] "device_id" (PStr "X2") []
           eq_refl (or_introl eq_refl) eq_refl eq_refl eq_refl).
Defined.

(** C5: a value other than None stored under the key [id] is the result,
    whatever other keys the dict has. *)
Theorem derive_id_first obj v :
  assoc "id" obj = Some v ->
  v <> PNone ->
  derive_identifier_key obj = Returns v.
Proof.
  intros Hid Hv. unfold derive_identifier_key, dict_get. rewrite Hid.
  destruct v; try reflexivity. now destruct Hv.
Qed.

(** [derive_identifier_key({"id": "abc"})] is "abc", also with a truthy
    [device_id] before it. *)
Lemma derive_id_first_witness :
  derive_identifier_key [("id", PStr "abc")] = Returns (PStr "abc") /\
  derive_identifier_key [("device_id", PStr "X1"); ("id", PStr "abc")]
  = Returns (PStr "abc").
Proof.
  split.
  - apply (derive_id_first [("id", PStr "abc")] (PStr "abc"));
      [reflexivity | discriminate].
  - apply (derive_id_first [("device_id", PStr "X1"); ("id", PStr "abc")]
             (PStr "abc")); [reflexivity | discriminate].
Defined.

(** C1 as first stated fails on [{"id": "", "device_id": "X1"}]: the value
    under [id] is falsy, a truthy [device_id] comes after it, and the result
    is the empty string, not "X1". *)
Lemma derive_empty_id_kept :
  truthy (PStr "") = false /\
  endswith "device_id" "_id" = true /\
  truthy (PStr "X1") = true /\
  derive_identifier_key [("id", PStr ""); ("device_id", PStr "X1")]
  = Returns (PStr "") /\
  derive_identifier_key [("id", PStr ""); ("device_id", PStr "X1")]
  <> Returns (PStr "X1").
Proof. repeat split. discriminate. Qed.

(** The first entry that passes the test of the loop, with what comes
    before it and after it. *)
Lemma first_candidate items :
  existsb is_candidate items = true ->
  exists before key value after,
    items = (before ++ (key, value) :: after)%list /\
    existsb is_candidate before = false /\
    endswith key "_id" = true /\ truthy value = true.
Proof.
  induction items as [|[key value] tl IH]; simpl; [discriminate|].
  destruct (endswith key "_id" && truthy value) eqn:E.
  - intros _. exists [], key, value, tl. apply andb_prop in E.
    simpl. intuition.
  - intros H. destruct (IH H) as (before & k & v & after & -> & Hb & Hk & Hv).
    exists ((key, value) :: before), k, v, after. simpl. rewrite E.
    intuition.
Qed.

Lemma derive_id_none_first obj before key value after :
  assoc "id" obj = Some PNone ->
  obj = (before ++ (key, value) :: after)%list ->
  existsb is_candidate before = false ->
  endswith key "_id" = true ->
  truthy value = true ->
  derive_identifier_key obj = Returns value.
Proof.
  intros Hid -> Hb Hk Hv.
  rewrite derive_id_absent by (unfold dict_get; rewrite Hid; reflexivity).
  cbv zeta. rewrite scan_items_first; [| exact Hb | simpl; now rewrite Hk, Hv].
  rewrite (truthy_not_none _ Hv). reflexivity.
Qed.

(** C1, amended: with None stored under [id], a dict that has an entry whose
    key ends with [_id] and whose value is truthy gives the value of the
    first such entry of the whole dict, in its order: the entry after [id]
    when none comes before it, an entry before [id] otherwise.  A value
    under [id] that is falsy without being None (an empty string, zero) is
    itself the result. *)
Theorem derive_id_none_then_suffix :
  (forall obj,
      assoc "id" obj = Some PNone ->
      existsb is_candidate obj = true ->
      exists before key value after,
        obj = (before ++ (key, value) :: after)%list /\
        existsb is_candidate before = false /\
        endswith key "_id" = true /\ truthy value = true /\
        derive_identifier_key obj = Returns value) /\
  (forall obj before key value after,
      assoc "id" obj = Some PNone ->
      obj = (before ++ (key, value) :: after)%list ->
      existsb is_candidate before = false ->
      endswith key "_id" = true ->
      truthy value = true ->
      derive_identifier_key obj = Returns value) /\
  (forall obj v,
      assoc "id" obj = Some v ->
      truthy v = false -> is_none v = false ->
      derive_identifier_key obj = Returns v).
Proof.
  split; [|split].
  - intros obj Hid Hc.
    destruct (first_candidate _ Hc)
      as (before & key & value & after & Hobj & Hb & Hk & Hv).
    exists before, key, value, after. repeat apply conj; try assumption.
    exact (derive_id_none_first _ _ _ _ _ Hid Hobj Hb Hk Hv).
  - exact derive_id_none_first.
  - intros obj v Hid _ Hv. unfold derive_identifier_key, dict_get.
    rewrite Hid, Hv, Hv. reflexivity.
Qed.

(** [derive_identifier_key({"id": None, "device_id": "X1"})] is "X1",
    [derive_identifier_key({"x_id": "A", "id": None, "device_id": "X1"})] is
    "A", and [derive_identifier_key({"id": 0, "device_id": "X1"})] is 0. *)
Lemma derive_id_none_then_suffix_witness :
  derive_identifier_key [("id", PNone); ("device_id", PStr "X1")]
  = Returns (PStr "X1") /\
  derive_identifier_key
    [("x_id", PStr "A"); ("id", PNone); ("device_id", PStr "X1")]
  = Returns (PStr "A") /\
  derive_identifier_key [("id", PInt 0); ("device_id", PStr "X1")]
  = Returns (PInt 0).
Proof.
  split; [|split].
  - exact (proj1 (proj2 derive_id_none_then_suffix)
             [("id", PNone); ("device_id", PStr "X1")]
             [("id", PNone)] "device_id" (PStr "X1") []
             eq_refl eq_refl eq_refl eq_refl eq_refl).
  - exact (proj1 (proj2 derive_id_none_then_suffix)
             [("x_id", PStr "A"); ("id", PNone); ("device_id", PStr "X1")]
             [] "x_id" (PStr "A") [("id", PNone); ("device_id", PStr "X1")]
             eq_refl eq_refl eq_refl eq_refl eq_refl).
  - exact (proj2 (proj2 derive_id_none_then_suffix)
             [("id", PInt 0); ("device_id", PStr "X1")] (PInt 0)
             eq_refl eq_refl eq_refl).
Defined.

(** C3: [derive_identifier_key] raises, with the message that no suitable
    identifier key was found, exactly when the value under [id] is missing or
    None and no entry has an [_id] key with a truthy value.  In every other
    case it returns one value, stored in the dict and not None. *)
Theorem derive_fails_iff obj :
  (derive_identifier_key obj = Raises (ValueError no_identifier_msg) <->
   is_none (dict_get obj "id") = true /\ existsb is_candidate obj = false) /\
  ((exists key v,
       derive_identifier_key obj = Returns v /\
       In (key, v) obj /\ is_none v = false) \/
   derive_identifier_key obj = Raises (ValueError no_identifier_msg)) /\
  derive_identifier_key [("name", PStr "foo")]
  = Raises (ValueError "No suitable identifier key found in object").
Proof.
  split; [|split; [|reflexivity]].
  - destruct (is_none (dict_get obj "id")) eqn:Hid.
    + rewrite (derive_id_absent _ Hid). cbv zeta.
      destruct (existsb is_candidate obj) eqn:Hc.
      * destruct (scan_items_found _ Hc) as (k & v & -> & _ & Ht).
        rewrite (truthy_not_none _ Ht). split; [discriminate | intros []; discriminate].
      * rewrite (scan_items_none _ _ Hc). simpl. tauto.
    + unfold derive_identifier_key. rewrite Hid, Hid.
      split; [discriminate | intros []; discriminate].
  - destruct (is_none (dict_get obj "id")) eqn:Hid.
    + rewrite (derive_id_absent _ Hid). cbv zeta.
      destruct (existsb is_candidate obj) eqn:Hc.
      * destruct (scan_items_found _ Hc) as (k & v & Hs & Hin & Ht).
        rewrite Hs, (truthy_not_none _ Ht). left. exists k, v.
        auto using truthy_not_none.
      * rewrite (scan_items_none _ _ Hc). right. reflexivity.
    + left. unfold derive_identifier_key. rewrite Hid, Hid.
      unfold dict_get in *. destruct (assoc "id" obj) as [v|] eqn:Ha;
        [|discriminate].
      exists "id", v. auto using assoc_In.
Qed.

(** ** The heap *)

Section StoreFacts.

Import Store.





(** An assignment does not: the heap is a state that computations can
    change. *)
Lemma assign_changes_heap :
  let h : heap := fun _ => CDict [] in
  snd (assign 0 (CDict [("id", VInt 1)]) h) 0 = CDict [("id", VInt 1)] /\
  h 0 = CDict [].
Proof. split; reflexivity. Qed.






Lemma store_get_value_body battr obj name :
  Store.get_value battr obj name =
  if negb (contains_dot name) then Store.field battr obj name
  else match split_dot_once name with
       | [first_name; remaining_part] =>
           sub_obj <- Store.field battr obj first_name ;;
           falsy <- (t <- Store.truthy sub_obj ;; ret (negb t)) ;;
           if falsy then ret VNone
           else Store.get_value battr sub_obj remaining_part
       | _ => raise unpack_error
       end.
Proof.
  funelim (Store.get_value battr obj name);
    repeat match goal with
           | H : contains_dot _ = _ |- _ => rewrite H; clear H
           | H : split_dot_once ?n = _ |- context [split_dot_once ?n] => rewrite H
           end; reflexivity.
Qed.





(** The two functions at work on a heap: "location.name" across two dicts,
    and a dict with None under [id]. *)
Example store_runs :
  let h : heap := fun l =>
    match l with
    | 0 => CDict [("location", VRef 1)]
    | 1 => CDict [("name", VStr "DC1")]
    | _ => CDict [("id", VNone); ("device_id", VStr "X1")]
    end in
  Store.get_value (fun _ _ => None) (VRef 0) "location.name" h
  = (Returns (VStr "DC1"), h) /\
  Store.derive_identifier_key (VRef 2) h = (Returns (VStr "X1"), h).
Proof. split; reflexivity. Qed.

End StoreFacts.

(** ** The heap functions and the value functions agree *)

Section Agreement.

Variable h : Store.heap.
Variable heap_attr : Store.val -> string -> option Store.val.
Variable builtin_attr : pyval -> string -> option pyval.

(** The two tables of built-in attributes describe the same interpreter. *)
Hypothesis builtin_attr_models :
  forall v t name,
    Store.models h v t ->
    match heap_attr v name, builtin_attr t name with
    | Some v', Some t' => Store.models h v' t'
    | None, None => True
    | _, _ => False
    end.

Lemma assoc_models {A B} (R : A -> B -> Prop) key items items' :
  Forall2 (Store.entry_rel R) items items' ->
  match assoc key items, assoc key items' with
  | Some a, Some b => R a b
  | None, None => True
  | _, _ => False
  end.
Proof.
  induction 1 as [|x y tl tl' Hxy _ IH]; simpl; [exact I|].
  destruct Hxy as [k a b Hab]. destruct (String.eqb k key); assumption.
Qed.

Lemma truthy_models v t :
  Store.models h v t -> Store.truthy v h = (Returns (truthy t), h).
Proof.
  intros [ | b | z | s | l elems elems' Hl Hf | l items items' Hl Hf
         | l truth attrs attrs' Hl Hf]; simpl; try reflexivity;
    unfold Store.bind, Store.deref, Store.ret; rewrite Hl;
    destruct Hf; reflexivity.
Qed.

Lemma is_none_models v t :
  Store.models h v t -> Store.is_none v = is_none t.
Proof. intros []; reflexivity. Qed.

Lemma field_models obj t name :
  Store.models h obj t ->
  exists r,
    Store.field heap_attr obj name h = (r, h) /\
    Store.result_rel (Store.models h) r (field builtin_attr t name).
Proof.
  intros Hm.
  assert (Hb : forall c,
             (forall truth attrs, c <> Some (Store.CObj truth attrs)) ->
             (forall truth attrs, t <> PObj truth attrs) ->
             exists r,
               Store.getattr_default heap_attr obj c name h = (r, h) /\
               Store.result_rel (Store.models h) r
                 (getattr_default builtin_attr t name)).
  { intros c Hc Ht. pose proof (builtin_attr_models _ _ name Hm) as Hb.
    assert (Store.getattr_default heap_attr obj c name
            = match heap_attr obj name with
              | Some v => Store.ret v
              | None => Store.ret Store.VNone
              end) as ->.
    { destruct c as [[]|]; try reflexivity. now destruct (Hc truth attrs). }
    assert (getattr_default builtin_attr t name
            = match builtin_attr t name with
              | Some v => Returns v
              | None => Returns PNone
              end) as ->.
    { destruct t; try reflexivity. now destruct (Ht truth attrs). }
    destruct (heap_attr obj name) as [v'|], (builtin_attr t name) as [t'|];
      try contradiction; eexists; (split; [reflexivity|]);
      constructor; [assumption | constructor]. }
  inversion Hm as [ | b | z | s | l elems elems' Hl Hf | l items items' Hl Hf
                   | l truth attrs attrs' Hl Hf]; subst;
    unfold Store.field, field, Store.bind, Store.deref;
    try rewrite Hl; lazy beta iota;
    try (apply Hb; intros; discriminate).
  - eexists. split; [reflexivity|].
    constructor. unfold Store.dict_get, dict_get.
    pose proof (assoc_models _ name _ _ Hf) as Ha.
    destruct (assoc name items), (assoc name items'); try contradiction;
      [assumption | constructor].
  - unfold Store.getattr_default, getattr_default.
    pose proof (assoc_models _ name _ _ Hf) as Ha.
    destruct (assoc name attrs) as [r|], (assoc name attrs') as [r'|];
      try contradiction.
    + destruct Ha as [v' t' Hvt | e].
      * eexists. split; [reflexivity|]. constructor. exact Hvt.
      * destruct e; eexists; (split; [reflexivity|]); repeat constructor.
    + eexists. split; [reflexivity|]. repeat constructor.
Qed.

(** On a heap value standing for [t], the heap [get_value] gives what
    [get_value] gives on [t]: the value standing for the same result, or the
    same exception. *)
Lemma get_value_models name :
  forall obj t,
    Store.models h obj t ->
    exists r,
      Store.get_value heap_attr obj name h = (r, h) /\
      Store.result_rel (Store.models h) r (get_value builtin_attr t name).
Proof.
  induction name as [name Hdot | name f r Hs IH] using path_ind;
    intros obj t Hm; rewrite store_get_value_body.
  - rewrite Hdot, (get_value_last _ _ _ Hdot). apply field_models, Hm.
  - rewrite (split_two_contains_dot _ _ _ Hs), Hs,
      (get_value_next _ _ _ _ _ Hs).
    lazy beta iota delta [negb Store.bind].
    destruct (field_models obj t f Hm) as (x & -> & Hx).
    destruct Hx as [sub sub' Hsub | e].
    + rewrite (truthy_models _ _ Hsub). unfold Store.ret at 1.
      destruct (truthy sub').
      * apply IH, Hsub.
      * eexists. split; [reflexivity|]. repeat constructor.
    + eexists. split; [reflexivity|]. constructor.
Qed.

Lemma scan_items_models items items' obj_id obj_id' :
  Forall2 (Store.entry_rel (Store.models h)) items items' ->
  Store.models h obj_id obj_id' ->
  exists v,
    Store.scan_items items obj_id h = (Returns v, h) /\
    Store.models h v (scan_items items' obj_id').
Proof.
  intros Hf Hid. induction Hf as [|x y tl tl' Hxy _ IH]; simpl.
  - eexists. split; [reflexivity | exact Hid].
  - destruct Hxy as [key v t Hvt].
    destruct (endswith key "_id"); [|exact IH].
    unfold Store.bind. rewrite (truthy_models _ _ Hvt). simpl.
    destruct (truthy t); [|exact IH].
    eexists. split; [reflexivity | exact Hvt].
Qed.

(** The same for [derive_identifier_key], on a reference to a dict. *)
Lemma derive_identifier_key_models obj items' :
  Store.models h obj (PDict items') ->
  exists r,
    Store.derive_identifier_key obj h = (r, h) /\
    Store.result_rel (Store.models h) r (derive_identifier_key items').
Proof.
  intros Hm. inversion Hm as [ | | | | | l items ? Hl Hf | ]; subst.
  assert (Hget : Store.models h (Store.dict_get items "id")
                   (dict_get items' "id")).
  { unfold Store.dict_get, dict_get.
    pose proof (assoc_models _ "id" _ _ Hf) as Ha.
    destruct (assoc "id" items), (assoc "id" items'); try contradiction;
      [assumption | constructor]. }
  unfold Store.derive_identifier_key, derive_identifier_key, Store.as_dict,
    Store.bind, Store.deref. rewrite Hl. simpl.
  rewrite (is_none_models _ _ Hget).
  destruct (is_none (dict_get items' "id")) eqn:E.
  - rewrite Hl. simpl.
    destruct (scan_items_models _ _ _ _ Hf Hget) as (v & -> & Hv).
    rewrite (is_none_models _ _ Hv).
    destruct (is_none (scan_items items' (dict_get items' "id")));
      eexists; (split; [reflexivity|]); constructor. exact Hv.
  - simpl. rewrite (is_none_models _ _ Hget), E.
    eexists. split; [reflexivity|]. constructor. exact Hget.
Qed.

End Agreement.

(** * Further properties *)

(** ** Paths put together *)

Lemma split_dot_once_app_last p q :
  contains_dot p = false -> split_dot_once (p ++ "." ++ q) = [p; q].
Proof.
  induction p as [|c rest IH]; simpl in *; [reflexivity|].
  destruct (Ascii.eqb c "."); [discriminate|].
  intros H. rewrite (IH H). reflexivity.
Qed.

Lemma split_dot_once_app_next p q first_name remaining_part :
  split_dot_once p = [first_name; remaining_part] ->
  split_dot_once (p ++ "." ++ q) = [first_name; remaining_part ++ "." ++ q].
Proof.
  revert first_name. induction p as [|c rest IH]; simpl in *; intros f H.
  - discriminate.
  - destruct (Ascii.eqb c ".").
    + injection H as <- <-. reflexivity.
    + destruct (split_dot_once rest) as [|hd [|hd2 tl]] eqn:E; try discriminate.
      injection H as <- <- Htl. subst tl. rewrite (IH hd eq_refl). reflexivity.
Qed.

Section ResolverComposition.

Variable builtin_attr : pyval -> string -> option pyval.

#[local] Abbreviation get_value := (get_value builtin_attr).
#[local] Abbreviation field := (field builtin_attr).

Lemma get_value_concat p :
  forall obj q,
    get_value obj (p ++ "." ++ q) =
    match get_value obj p with
    | Raises e => Raises e
    | Returns v => if truthy v then get_value v q else Returns PNone
    end.
Proof.
  induction p as [p Hdot | p f r Hs IH] using path_ind; intros obj q.
  - rewrite (get_value_next _ _ _ _ _ (split_dot_once_app_last p q Hdot)).
    rewrite (get_value_last _ _ _ Hdot). reflexivity.
  - rewrite (get_value_next _ _ _ _ _ (split_dot_once_app_next p q _ _ Hs)).
    rewrite (get_value_next _ _ _ _ _ Hs).
    destruct (field obj f) as [sub|e]; [|reflexivity].
    destruct (truthy sub); [apply IH | reflexivity].
Qed.

(** X1: resolving [p.q] is resolving [p] and then [q] on what [p] gave:
    an exception of [p] is the exception of [p.q], a falsy value of [p]
    makes [p.q] None, and any other value is resolved along [q]. *)
Theorem get_value_app p obj q :
  get_value obj (p ++ "." ++ q) =
  match get_value obj p with
  | Raises e => Raises e
  | Returns v => if truthy v then get_value v q else Returns PNone
  end.
Proof.
  destruct (get_value obj p) as [v|e] eqn:E;
    rewrite get_value_concat, E; reflexivity.
Qed.

(** X2: once a path gives a falsy value, None included, every longer path
    that starts with it gives None. *)
Theorem get_value_falsy_prefix obj p q v :
  get_value obj p = Returns v ->
  truthy v = false ->
  get_value obj (p ++ "." ++ q) = Returns PNone.
Proof.
  intros Hp Hv. rewrite get_value_concat, Hp, Hv. reflexivity.
Qed.

Lemma assoc_filter_key {A} (keep : string -> bool) key (items : list (string * A)) :
  keep key = true ->
  assoc key (filter (fun entry => keep (fst entry)) items) = assoc key items.
Proof.
  intros Hk. induction items as [|[k v] tl IH]; simpl; [reflexivity|].
  destruct (keep k) eqn:Ek; simpl.
  - rewrite IH. reflexivity.
  - destruct (String.eqb k key) eqn:E; [|exact IH].
    apply String.eqb_eq in E. congruence.
Qed.

(** X3: a key with a dot in it is out of reach.  Whatever the path, the
    result on a dict is the result on the dict without its dotted keys. *)
Theorem get_value_ignores_dotted_keys items name :
  get_value (PDict items) name =
  get_value
    (PDict (filter (fun entry => negb (contains_dot (fst entry))) items)) name.
Proof.
  destruct (contains_dot name) eqn:Hdot.
  - destruct (contains_dot_true_split _ Hdot) as (f & r & Hs & _ & Hf).
    rewrite !(get_value_next _ _ _ _ _ Hs). simpl. unfold dict_get.
    rewrite (assoc_filter_key (fun k => negb (contains_dot k)));
      [reflexivity | now rewrite Hf].
  - rewrite !(get_value_last _ _ _ Hdot). simpl. unfold dict_get.
    rewrite (assoc_filter_key (fun k => negb (contains_dot k)));
      [reflexivity | now rewrite Hdot].
Qed.

End ResolverComposition.

(** [get_value({"a": {"b": 0}}, "a.b")] is 0, so
    [get_value({"a": {"b": 0}}, "a.b.c")] is None. *)
Lemma get_value_falsy_prefix_witness :
  get_value bare_builtins (PDict [("a", PDict [("b", PInt 0)])]) "a.b.c"
  = Returns PNone.
Proof.
  exact (get_value_falsy_prefix bare_builtins
           (PDict [("a", PDict [("b", PInt 0)])]) "a.b" "c" (PInt 0)
           eq_refl eq_refl).
Defined.

(** ** Identifiers and the shape of the dict *)

Lemma derive_id_present obj :
  is_none (dict_get obj "id") = false ->
  derive_identifier_key obj = Returns (dict_get obj "id").
Proof.
  intros H. unfold derive_identifier_key. rewrite H, H. reflexivity.
Qed.

(** What the loop assigns is the value of the first entry among those that
    pass its test. *)
Lemma scan_items_filter items obj_id :
  scan_items items obj_id =
  match filter is_candidate items with
  | [] => obj_id
  | (_, value) :: _ => value
  end.
Proof.
  induction items as [|[key value] tl IH]; simpl; [reflexivity|].
  destruct (endswith key "_id" && truthy value); [reflexivity | exact IH].
Qed.

(** X4: a falsy identifier can only be the value stored under [id]: the
    values taken from [_id] keys are truthy. *)
Theorem derive_falsy_only_from_id obj v :
  derive_identifier_key obj = Returns v ->
  truthy v = false ->
  assoc "id" obj = Some v.
Proof.
  intros H Hv. destruct (is_none (dict_get obj "id")) eqn:Hid.
  - rewrite (derive_id_absent _ Hid) in H. cbv zeta in H.
    destruct (existsb is_candidate obj) eqn:Hc.
    + destruct (scan_items_found _ Hc) as (k & x & Hs & _ & Ht).
      rewrite Hs, (truthy_not_none _ Ht) in H. congruence.
    + rewrite (scan_items_none _ _ Hc) in H. discriminate.
  - rewrite (derive_id_present _ Hid) in H. unfold dict_get in *.
    destruct (assoc "id" obj); [congruence | discriminate].
Qed.

(** [derive_identifier_key({"id": 0, "device_id": "X1"})] is 0, the value
    under [id]. *)
Lemma derive_falsy_only_from_id_witness :
  assoc "id" [("id", PInt 0); ("device_id", PStr "X1")] = Some (PInt 0).
Proof.
  exact (derive_falsy_only_from_id
           [("id", PInt 0); ("device_id", PStr "X1")] (PInt 0)
           eq_refl eq_refl).
Defined.

Lemma assoc_app_some {A} key (before after : list (string * A)) v :
  assoc key before = Some v -> assoc key (before ++ after)%list = Some v.
Proof.
  induction before as [|[k x] tl IH]; simpl; [discriminate|].
  destruct (String.eqb k key); [trivial | exact IH].
Qed.

(** X5: fields added after the others, none of them called [id], leave the
    identifier as it was. *)
Theorem derive_stable_under_extension obj extra v :
  derive_identifier_key obj = Returns v ->
  assoc "id" extra = None ->
  derive_identifier_key (obj ++ extra)%list = Returns v.
Proof.
  intros H Hx. destruct (is_none (dict_get obj "id")) eqn:Hid.
  - assert (Hid' : dict_get (obj ++ extra)%list "id" = PNone).
    { apply is_none_true in Hid. unfold dict_get in *.
      destruct (assoc "id" obj) as [x|] eqn:E.
      - rewrite (assoc_app_some _ _ _ _ E). exact Hid.
      - rewrite (assoc_app_none _ _ _ E), Hx. reflexivity. }
    rewrite (derive_id_absent _ Hid) in H.
    rewrite derive_id_absent by (rewrite Hid'; reflexivity).
    cbv zeta in *. rewrite scan_items_filter in *. rewrite filter_app.
    destruct (filter is_candidate obj) as [|[k x] tl]; [discriminate|].
    exact H.
  - rewrite (derive_id_present _ Hid) in H.
    assert (Hid' : dict_get (obj ++ extra)%list "id" = dict_get obj "id").
    { unfold dict_get in *. destruct (assoc "id" obj) as [x|] eqn:E;
        [|discriminate].
      rewrite (assoc_app_some _ _ _ _ E). reflexivity. }
    rewrite derive_id_present; rewrite Hid'; assumption.
Qed.

(** [{"device_id": "X1"}] extended with a [name] and a [site_id]. *)
Lemma derive_stable_under_extension_witness :
  derive_identifier_key
    [("device_id", PStr "X1"); ("name", PStr "r1"); ("site_id", PStr "S9")]
  = Returns (PStr "X1").
Proof.
  exact (derive_stable_under_extension
           [("device_id", PStr "X1")]
           [("name", PStr "r1"); ("site_id", PStr "S9")] (PStr "X1")
           eq_refl eq_refl).
Defined.

(** In a dict, where no key occurs twice, [get] finds the one entry that has
    the key. *)
Lemma assoc_unique {A} key (items : list (string * A)) v :
  NoDup (map fst items) -> In (key, v) items -> assoc key items = Some v.
Proof.
  induction items as [|[k x] tl IH]; simpl; [contradiction|].
  intros Hnd [E | Hin].
  - injection E as -> ->. rewrite String.eqb_refl. reflexivity.
  - inversion Hnd as [|? ? Hk Htl]; subst.
    destruct (String.eqb k key) eqn:E; [|exact (IH Htl Hin)].
    apply String.eqb_eq in E. subst k.
    destruct Hk. exact (in_map fst _ _ Hin).
Qed.

Lemma assoc_permutation {A} key (items items' : list (string * A)) :
  NoDup (map fst items) -> Permutation items items' ->
  assoc key items' = assoc key items.
Proof.
  intros Hnd Hp.
  assert (Hnd' : NoDup (map fst items'))
    by exact (Permutation_NoDup (Permutation_map fst Hp) Hnd).
  destruct (assoc key items) as [v|] eqn:E.
  - apply assoc_unique; [exact Hnd'|].
    exact (Permutation_in _ Hp (assoc_In _ _ _ E)).
  - destruct (assoc key items') as [v'|] eqn:E'; [|reflexivity].
    apply assoc_In in E'. apply (Permutation_in _ (Permutation_sym Hp)) in E'.
    rewrite (assoc_unique _ _ _ Hnd E') in E. discriminate.
Qed.

Lemma filter_permutation {A} (f : A -> bool) (l l' : list A) :
  Permutation l l' -> Permutation (filter f l) (filter f l').
Proof.
  induction 1 as [|x l l' _ IH|x y l|l l' l'' _ IH1 _ IH2]; simpl.
  - constructor.
  - destruct (f x); [constructor|]; exact IH.
  - destruct (f x), (f y); try apply Permutation_refl. constructor.
  - exact (Permutation_trans IH1 IH2).
Qed.

(** X6: the order of the entries matters only for the choice among several
    truthy [_id] entries.  With a value other than None under [id], or with
    at most one entry that has an [_id] key and a truthy value, a dict and
    any reordering of it give the same result. *)
Theorem derive_order_irrelevant obj obj' :
  NoDup (map fst obj) ->
  Permutation obj obj' ->
  is_none (dict_get obj "id") = false \/
  List.length (filter is_candidate obj) <= 1 ->
  derive_identifier_key obj' = derive_identifier_key obj.
Proof.
  intros Hnd Hp Hcase.
  assert (Hid : dict_get obj' "id" = dict_get obj "id").
  { unfold dict_get. rewrite (assoc_permutation _ _ _ Hnd Hp). reflexivity. }
  destruct (is_none (dict_get obj "id")) eqn:E.
  - destruct Hcase as [|Hlen]; [discriminate|].
    rewrite !derive_id_absent by (rewrite ?Hid; exact E).
    cbv zeta. rewrite !scan_items_filter.
    pose proof (filter_permutation is_candidate _ _ Hp) as Hf.
    destruct (filter is_candidate obj) as [|c [|c' tl]]; simpl in Hlen.
    + rewrite (Permutation_nil Hf). reflexivity.
    + rewrite (Permutation_length_1_inv Hf). reflexivity.
    + lia.
  - rewrite !derive_id_present by (rewrite ?Hid; exact E).
    rewrite Hid. reflexivity.
Qed.

(** [{"name": "r1", "device_id": "X1", "site": None}] read in another
    order. *)
Lemma derive_order_irrelevant_witness :
  derive_identifier_key
    [("site", PNone); ("device_id", PStr "X1"); ("name", PStr "r1")]
  = derive_identifier_key
      [("name", PStr "r1"); ("device_id", PStr "X1"); ("site", PNone)].
Proof.
  apply derive_order_irrelevant.
  - repeat constructor; simpl; intuition discriminate.
  - apply Permutation_rev.
  - right. simpl. lia.
Defined.

(** ** Dicts and instances under [get_value] *)

Section ResolverShapes.

Variable builtin_attr : pyval -> string -> option pyval.

#[local] Abbreviation get_value := (get_value builtin_attr).
#[local] Abbreviation field := (field builtin_attr).

(** Two records that give the same value for every field name resolve
    alike along every path. *)
Lemma get_value_same_fields obj obj' :
  (forall name, field obj' name = field obj name) ->
  forall name, get_value obj' name = get_value obj name.
Proof.
  intros H name. rewrite !get_value_body.
  destruct (contains_dot name); simpl; [|apply H].
  destruct (split_dot_once name) as [|f [|r [|x tl]]]; try reflexivity.
  rewrite H. reflexivity.
Qed.

(** X7: [get_value] does not depend on the order in which the dict it is
    given holds its keys. *)
Theorem get_value_order_irrelevant items items' name :
  NoDup (map fst items) ->
  Permutation items items' ->
  get_value (PDict items') name = get_value (PDict items) name.
Proof.
  intros Hnd Hp. apply get_value_same_fields. intros key. simpl.
  unfold dict_get. rewrite (assoc_permutation _ _ _ Hnd Hp). reflexivity.
Qed.

(** [get_value] looks at the record it is given through one field only,
    the one the leading segment of the path names. *)
Lemma get_value_leading obj obj' name :
  field obj' (leading name) = field obj (leading name) ->
  get_value obj' name = get_value obj name.
Proof.
  intros E. destruct (contains_dot name) eqn:Hdot.
  - destruct (get_value_unpacks _ Hdot) as (f & r & Hs).
    rewrite (leading_split _ _ _ Hs) in E.
    rewrite !(get_value_next _ _ _ _ _ Hs), E. reflexivity.
  - rewrite (leading_no_dot _ Hdot) in E.
    rewrite !(get_value_last _ _ _ Hdot). exact E.
Qed.

(** X8: an instance and a dict resolve a path alike when they agree on its
    leading segment: the attribute has the value the key has, or the
    attribute is missing, or ends in [AttributeError], and the key is
    missing or holds None.  The attributes are all those [getattr] answers
    for, [__dict__] and [__class__] among them: on such names, which the
    dict does not have, the two differ. *)
Theorem get_value_instance_as_dict truth attrs items name :
  match assoc (leading name) attrs with
  | Some (Returns v) => dict_get items (leading name) = v
  | Some (Raises AttributeError) | None =>
      dict_get items (leading name) = PNone
  | Some (Raises _) => False
  end ->
  get_value (PObj truth attrs) name = get_value (PDict items) name.
Proof.
  intros E. apply get_value_leading. simpl.
  destruct (assoc (leading name) attrs) as [[v | []] |];
    try contradiction; rewrite E; reflexivity.
Qed.

End ResolverShapes.

(** An instance with [x = {"y": 1}], its [__dict__] listed with it, and the
    dict [{"x": {"y": 1}}]: alike on "x.y" and on the missing "z", not on
    "__dict__". *)
Lemma get_value_instance_as_dict_witness :
  get_value bare_builtins
    (PObj true [("x", Returns (PDict [("y", PInt 1)]));
                ("__dict__", Returns (PDict [("x", PDict [("y", PInt 1)])]))])
    "x.y"
  = get_value bare_builtins (PDict [("x", PDict [("y", PInt 1)])]) "x.y" /\
  get_value bare_builtins
    (PObj true [("x", Returns (PDict [("y", PInt 1)]));
                ("__dict__", Returns (PDict [("x", PDict [("y", PInt 1)])]))])
    "z"
  = get_value bare_builtins (PDict [("x", PDict [("y", PInt 1)])]) "z" /\
  get_value bare_builtins
    (PObj true [("x", Returns (PDict [("y", PInt 1)]));
                ("__dict__", Returns (PDict [("x", PDict [("y", PInt 1)])]))])
    "__dict__"
  = Returns (PDict [("x", PDict [("y", PInt 1)])]) /\
  get_value bare_builtins (PDict [("x", PDict [("y", PInt 1)])]) "__dict__"
  = Returns PNone.
Proof.
  split; [|split; [|split; reflexivity]].
  - apply (get_value_instance_as_dict bare_builtins). reflexivity.
  - apply (get_value_instance_as_dict bare_builtins). reflexivity.
Defined.

(** [{"name": "DC1", "site": {"code": "S9"}}] and the same dict with its two
    keys the other way round, on "site.code". *)
Lemma get_value_order_irrelevant_witness :
  get_value bare_builtins
    (PDict [("site", PDict [("code", PStr "S9")]); ("name", PStr "DC1")])
    "site.code"
  = get_value bare_builtins
      (PDict [("name", PStr "DC1"); ("site", PDict [("code", PStr "S9")])])
      "site.code".
Proof.
  apply get_value_order_irrelevant.
  - repeat constructor; simpl; intuition discriminate.
  - apply Permutation_rev.
Defined.

(** ** The commands of the command line *)

Section CliFacts.

Import Cli.

Variable H : host.

Lemma exactly_one_fails name config_file message w :
  given name = given config_file ->
  exactly_one H name config_file message w
  = (Failed Abort, w, [error_line message]).
Proof.
  intros E. unfold exactly_one. rewrite E.
  destruct (given config_file); reflexivity.
Qed.

Lemma exactly_one_passes name config_file message w :
  given name <> given config_file ->
  exactly_one H name config_file message w = (Done tt, w, []).
Proof.
  intros E. unfold exactly_one.
  destruct (given name), (given config_file); try reflexivity; now destruct E.
Qed.

(** A command whose first event, on every run, is [e]. *)
Definition starts_with {A} (e : event) (m : Cmd H A) : Prop :=
  forall w, exists r w' rest, m w = (r, w', e :: rest).

Lemma starts_with_call {A} op (f : world H -> answer (exc H) A * world H) :
  starts_with (Invoke op) (call H op f).
Proof.
  intros w. unfold call. destruct (f w) as [[a|e] w1]; eauto.
Qed.

Lemma starts_with_bind {A B} e (m : Cmd H A) (k : A -> Cmd H B) :
  starts_with e m -> starts_with e (bind H m k).
Proof.
  intros Hm w. unfold bind. destruct (Hm w) as ([a|f] & w1 & rest & ->).
  - destruct (k a w1) as [[r w2] t2]. simpl. repeat eexists.
  - repeat eexists.
Qed.

Lemma starts_with_load_instance name config_file directory not_found :
  starts_with (Invoke (GetInstance name config_file directory))
    (load_instance H name config_file directory not_found).
Proof. apply starts_with_bind, starts_with_call. Qed.

Lemma bind_passes {A B} (m : Cmd H A) (k : A -> Cmd H B) a w :
  m w = (Done a, w, []) -> bind H m k w = k a w.
Proof.
  intros E. unfold bind. rewrite E. destruct (k a w) as [[r w2] t2].
  reflexivity.
Qed.

Lemma bind_fails {A B} (m : Cmd H A) (k : A -> Cmd H B) f w w1 t1 :
  m w = (Failed f, w1, t1) -> bind H m k w = (Failed f, w1, t1).
Proof. intros E. unfold bind. rewrite E. reflexivity. Qed.

(** X9: each of the three commands wants exactly one of [name] and
    [config_file], an empty string counting as none.  With both or with
    neither it prints its error line and aborts, and nothing outside has
    been called; with exactly one, the first thing it does is to look the
    instance up. *)
Theorem commands_want_exactly_one
  name config_file directory branch show_progress diff_opt w :
  (given name = given config_file ->
   diff_cmd H name config_file directory branch show_progress w
   = (Failed Abort, w,
      [error_line "Please specify exactly one of 'name' or 'config-file'."]) /\
   sync_cmd H name config_file directory branch diff_opt show_progress w
   = (Failed Abort, w,
      [error_line "Please specify exactly one of 'name' or 'config-file'."]) /\
   generate H name config_file directory branch w
   = (Failed Abort, w,
      [error_line "Please specify exactly one of 'name' or 'config_file'."])) /\
  (given name <> given config_file ->
   exists rd wd td rs ws ts rg wg tg,
     diff_cmd H name config_file directory branch show_progress w
     = (rd, wd, Invoke (GetInstance name config_file directory) :: td) /\
     sync_cmd H name config_file directory branch diff_opt show_progress w
     = (rs, ws, Invoke (GetInstance name config_file directory) :: ts) /\
     generate H name config_file directory branch w
     = (rg, wg, Invoke (GetInstance name config_file directory) :: tg)).
Proof.
  split; intros E.
  - unfold diff_cmd, sync_cmd, generate.
    repeat split; apply bind_fails, exactly_one_fails, E.
  - unfold diff_cmd, sync_cmd, generate.
    rewrite !(bind_passes _ _ tt w (exactly_one_passes _ _ _ w E)).
    do 3 match goal with
         | |- context [bind H (load_instance H ?n ?c ?d ?msg) ?k w] =>
             destruct (starts_with_bind _ (load_instance H n c d msg) k
                         (starts_with_load_instance n c d msg) w)
               as (? & ? & ? & ->)
         end.
    repeat eexists.
Qed.

(** *** Runs taken apart *)

Lemma bind_inv {A B} (m : Cmd H A) (k : A -> Cmd H B) w r w' t :
  bind H m k w = (r, w', t) ->
  (exists f, m w = (Failed f, w', t) /\ r = Failed f) \/
  (exists a w1 t1 t2,
      m w = (Done a, w1, t1) /\ k a w1 = (r, w', t2) /\ t = (t1 ++ t2)%list).
Proof.
  unfold bind. destruct (m w) as [[[a|f] w1] t1].
  - destruct (k a w1) as [[r2 w2] t2] eqn:E. intros [= <- <- <-].
    right. exists a, w1, t1, t2. auto.
  - intros [= <- <- <-]. left. exists f. auto.
Qed.

Lemma call_inv {A} op (f : world H -> answer (exc H) A * world H) w r w' t :
  call H op f w = (r, w', t) ->
  t = [Invoke op] /\
  ((exists a, f w = (Gives a, w') /\ r = Done a) \/
   (exists e, f w = (Throws e, w') /\ r = Failed (Raised e))).
Proof.
  unfold call. destruct (f w) as [[a|e] w1]; intros [= <- <- <-];
    (split; [reflexivity|]); [left | right]; eauto.
Qed.

Lemma try_except_inv {A} (m : Cmd H A) caught handler w r w' t :
  try_except H m caught handler w = (r, w', t) ->
  (m w = (r, w', t) /\
   forall e, r = Failed (Raised e) -> caught e = false) \/
  (exists e w1 t1 t2,
      m w = (Failed (Raised e), w1, t1) /\ caught e = true /\
      handler e w1 = (r, w', t2) /\ t = (t1 ++ t2)%list).
Proof.
  unfold try_except. destruct (m w) as [[[a|[|var|e]] w1] t1].
  - intros [= <- <- <-]. left. split; [reflexivity | intros ?; discriminate].
  - intros [= <- <- <-]. left. split; [reflexivity | intros ?; discriminate].
  - intros [= <- <- <-]. left. split; [reflexivity | intros ?; discriminate].
  - destruct (caught e) eqn:Ec.
    + destruct (handler e w1) as [[r2 w2] t2] eqn:Eh. intros [= <- <- <-].
      right. exists e, w1, t1, t2. auto.
    + intros [= <- <- <-]. left. split; [reflexivity|].
      intros e' [= <-]. exact Ec.
Qed.

Lemma print_error_and_abort_inv {A} message w (r : outcome H A) w' t :
  print_error_and_abort H message w = (r, w', t) ->
  r = Failed Abort /\ w' = w /\ t = [error_line message].
Proof.
  unfold print_error_and_abort, bind, console_print, raise. simpl.
  intros [= <- <- <-]. auto.
Qed.

Lemma local_inv {A} var (slot : option A) w r w' t :
  local H var slot w = (r, w', t) ->
  t = [] /\ w' = w /\
  match slot with
  | Some a => r = Done a
  | None => r = Failed (UnboundLocalError var)
  end.
Proof.
  unfold local, ret, raise. destruct slot; intros [= <- <- <-]; auto.
Qed.

(** Taking a run apart, statement by statement: each call outside is split
    into the answers it can give. *)
Ltac invert_step :=
          match goal with
          | E : Some _ = None |- _ => discriminate E
          | E : None = Some _ |- _ => discriminate E
          | E : Some _ = Some _ |- _ => inversion E; clear E
          | E : Done _ = Failed _ |- _ => discriminate E
          | E : Failed _ = Done _ |- _ => discriminate E
          | E : Failed _ = Failed _ |- _ => inversion E; clear E
          | E : Done _ = Done _ |- _ => inversion E; clear E
          | E1 : ?f = (_, _), E2 : ?f = (_, _) |- _ =>
              rewrite E1 in E2; inversion E2; clear E2
          | E : bind _ _ _ _ = _ |- _ =>
              apply bind_inv in E;
              destruct E as [(? & E & ?) | (? & ? & ? & ? & E & ? & ?)]
          | E : call _ _ _ _ = _ |- _ =>
              apply call_inv in E;
              destruct E as (? & [(? & ? & ?) | (? & ? & ?)])
          | E : try_except _ _ _ _ _ = _ |- _ =>
              apply try_except_inv in E;
              destruct E as [(E & ?) | (? & ? & ? & ? & E & ? & ? & ?)]
          | E : print_error_and_abort _ _ _ = _ |- _ =>
              apply print_error_and_abort_inv in E;
              destruct E as (? & ? & ?)
          | E : local _ _ _ _ = _ |- _ =>
              apply local_inv in E; destruct E as (? & ? & E)
          | E : ret _ _ _ = _ |- _ => inversion E; clear E
          | E : raise _ _ _ = _ |- _ => inversion E; clear E
          | E : console_print _ _ _ _ = _ |- _ => inversion E; clear E
          | E : stdout_print _ _ _ = _ |- _ => inversion E; clear E
          | E : exactly_one _ _ _ _ _ = _ |- _ => unfold exactly_one in E
          | E : (if ?b then _ else _) _ = _ |- _ => destruct b eqn:?
          | E : match ?x with _ => _ end _ = _ |- _ => destruct x eqn:?
          | E : context [usable ?s] |- _ =>
              lazymatch type of E with
              | usable _ = _ => fail
              | _ => destruct (usable s) eqn:?
              end
          end.

Ltac invert_run :=
  repeat first
    [ progress (cbv beta in * )
    | progress (cbn [infrahub_address infrahub_token infrahub_branch
                     sdk_config unbound read_settings] in * )
    | progress subst
    | invert_step ].

(** What is left once a run is taken apart: membership in a trace that is
    written out. *)
Ltac trace_facts :=
  simpl; rewrite ?in_app_iff; simpl; unfold error_line;
  intuition (try discriminate; try congruence; eauto).

(** X10: [sync_cmd] calls [sync] only when [has_diffs] has answered True,
    and then does not say that there is nothing to sync; it says so only
    when [has_diffs] has answered False, and then [sync] is not called.  A run
    that returns has done the one or the other. *)
Theorem sync_cmd_syncs_on_differences
  name config_file directory branch diff_opt show_progress w :
  let '(r, _, trace) :=
    sync_cmd H name config_file directory branch diff_opt show_progress w in
  (In (Invoke Sync) trace ->
   ~ In no_difference trace /\
   exists d w1 w2, has_diffs H d w1 = (Gives true, w2)) /\
  (In no_difference trace ->
   ~ In (Invoke Sync) trace /\
   exists d w1 w2, has_diffs H d w1 = (Gives false, w2)) /\
  (r = Done tt -> In (Invoke Sync) trace \/ In no_difference trace).
Proof.
  destruct (sync_cmd H name config_file directory branch diff_opt
              show_progress w) as [[r w'] trace] eqn:E.
  unfold sync_cmd, load_instance, load_both in E.
  invert_run; trace_facts.
Qed.

(** The test on [name] and [config_file], read as a fact about the two. *)
Ltac guard_facts :=
  repeat match goal with
         | E : negb (Nat.b2n (given ?a) + Nat.b2n (given ?b) =? 1)%nat = _
           |- _ =>
             destruct (given a), (given b); simpl in E; try discriminate E;
             clear E
         end;
  try congruence.

(** X11: [generate] reads local variables that only the settings of an
    infrahub side bind.  Once the instance is found, a destination called
    infrahub without usable settings, or no side called infrahub at all,
    ends the command on the unbound [infrahub_address]; a source called
    infrahub without usable settings ends it on the unbound
    [infrahub_branch].  In each case nothing else has been called. *)
Theorem generate_unbound_locals name config_file directory branch w w1 inst :
  given name <> given config_file ->
  get_instance H name config_file directory w = (Gives (Some inst), w1) ->
  (String.eqb (destination_name H inst) "infrahub" = true ->
   usable (destination_settings H inst) = None ->
   generate H name config_file directory branch w
   = (Failed (UnboundLocalError "infrahub_address"), w1,
      [Invoke (GetInstance name config_file directory)])) /\
  (String.eqb (destination_name H inst) "infrahub" = false ->
   String.eqb (source_name H inst) "infrahub" = true ->
   usable (source_settings H inst) = None ->
   generate H name config_file directory branch w
   = (Failed (UnboundLocalError "infrahub_branch"), w1,
      [Invoke (GetInstance name config_file directory)])) /\
  (String.eqb (destination_name H inst) "infrahub" = false ->
   String.eqb (source_name H inst) "infrahub" = false ->
   generate H name config_file directory branch w
   = (Failed (UnboundLocalError "infrahub_address"), w1,
      [Invoke (GetInstance name config_file directory)])).
Proof.
  intros Hone Hget. repeat split; intros;
    destruct (generate H name config_file directory branch w)
      as [[r w'] trace] eqn:E;
    unfold generate, load_instance, make_config in E;
    invert_run; guard_facts; try congruence; try reflexivity.
Qed.

Lemma chosen_branch from_settings branch :
  let chosen :=
    if negb (truthy from_settings) && given branch then option_value branch
    else if negb (truthy from_settings) && negb (given branch) then PStr "main"
    else from_settings in
  chosen = (if truthy from_settings then from_settings
            else if given branch then option_value branch else PStr "main") /\
  truthy chosen = true.
Proof.
  destruct (truthy from_settings) eqn:Et; cbn [negb andb].
  - split; [reflexivity | exact Et].
  - destruct branch as [b|]; cbn [given option_value negb andb].
    + destruct (String.eqb b "") eqn:Eb; cbn [negb]; split; try reflexivity.
      cbn [truthy]. rewrite Eb. reflexivity.
    + split; reflexivity.
Qed.

(** X12: with usable settings on the infrahub side, [Config] is asked for
    the branch of the settings when that is truthy, else for the branch
    given on the command line when there is one, else for "main": never for
    an empty branch.  The token is the one of the settings, and the client,
    when the run comes to it, is given the [url] of the settings. *)
Theorem generate_branch_choice
  name config_file directory branch w w1 inst settings :
  given name <> given config_file ->
  get_instance H name config_file directory w = (Gives (Some inst), w1) ->
  (String.eqb (destination_name H inst) "infrahub" = true /\
   usable (destination_settings H inst) = Some settings) \/
  (String.eqb (destination_name H inst) "infrahub" = false /\
   String.eqb (source_name H inst) "infrahub" = true /\
   usable (source_settings H inst) = Some settings) ->
  exists chosen r w' rest,
    generate H name config_file directory branch w
    = (r, w',
       Invoke (GetInstance name config_file directory)
       :: Invoke (MakeConfig chosen (dict_get settings "token")) :: rest) /\
    chosen = (if truthy (dict_get settings "branch")
              then dict_get settings "branch"
              else if given branch then option_value branch
                   else PStr "main") /\
    truthy chosen = true /\
    (rest = [] \/
     exists rest',
       rest = Invoke (MakeClient (dict_get settings "url")) :: rest').
Proof.
  intros Hone Hget Hside.
  destruct (generate H name config_file directory branch w)
    as [[r w'] trace] eqn:E.
  unfold generate, load_instance, make_config in E.
  destruct Hside as [(Hd & Hu) | (Hd & Hs & Hu)];
    invert_run; guard_facts; try congruence;
    (do 4 eexists; split; [simpl; reflexivity|]);
    (split; [apply chosen_branch | split; [apply chosen_branch|]]);
    first [left; reflexivity | right; eexists; reflexivity].
Qed.

(** X13: a ValueError raised while the source is loaded ends [diff_cmd] and
    [sync_cmd] with an error line that carries its text and with Abort;
    any other exception leaves the command as it is, with no line printed.
    Either way the destination is not loaded and no diff is made. *)
Theorem load_failure_stops
  name config_file directory branch show_progress diff_opt
  w w1 w2 w3 inst ptd e :
  given name <> given config_file ->
  get_instance H name config_file directory w = (Gives (Some inst), w1) ->
  get_potenda_from_instance H inst branch show_progress w1 = (Gives ptd, w2) ->
  source_load H ptd w2 = (Throws e, w3) ->
  diff_cmd H name config_file directory branch show_progress w
  = (if is_ValueError H e
     then (Failed Abort, w3,
           [Invoke (GetInstance name config_file directory);
            Invoke (GetPotenda branch show_progress);
            Invoke SourceLoad; error_line (str_exc H e)])
     else (Failed (Raised e), w3,
           [Invoke (GetInstance name config_file directory);
            Invoke (GetPotenda branch show_progress);
            Invoke SourceLoad])) /\
  sync_cmd H name config_file directory branch diff_opt show_progress w
  = diff_cmd H name config_file directory branch show_progress w.
Proof.
  intros Hone Hget Hptd Hload.
  assert (Hd : diff_cmd H name config_file directory branch show_progress w
          = (if is_ValueError H e
             then (Failed Abort, w3,
                   [Invoke (GetInstance name config_file directory);
                    Invoke (GetPotenda branch show_progress);
                    Invoke SourceLoad; error_line (str_exc H e)])
             else (Failed (Raised e), w3,
                   [Invoke (GetInstance name config_file directory);
                    Invoke (GetPotenda branch show_progress);
                    Invoke SourceLoad]))).
  { destruct (diff_cmd H name config_file directory branch show_progress w)
      as [[r w'] trace] eqn:E.
    unfold diff_cmd, load_instance, load_both in E.
    invert_run; guard_facts;
      repeat match goal with
             | E : forall e, Failed (Raised _) = Failed (Raised e) -> _ |- _ =>
                 specialize (E _ eq_refl)
             | E : is_ValueError H ?x = _ |- _ => rewrite E
             end; try congruence; reflexivity. }
  split; [exact Hd|]. rewrite Hd.
  destruct (sync_cmd H name config_file directory branch diff_opt
              show_progress w) as [[r w'] trace] eqn:E.
  unfold sync_cmd, load_instance, load_both in E.
  invert_run; guard_facts;
    repeat match goal with
           | E : forall e, Failed (Raised _) = Failed (Raised e) -> _ |- _ =>
               specialize (E _ eq_refl)
           | E : is_ValueError H ?x = _ |- _ => rewrite E
           end; try congruence; reflexivity.
Qed.

Lemma print_rendered_run rendered_files w :
  print_rendered H rendered_files w
  = (Done tt, w, map rendered_line rendered_files).
Proof.
  revert w. induction rendered_files as [|[template output_path] rest IH];
    intros w; simpl; [reflexivity|].
  unfold bind, console_print. rewrite IH. reflexivity.
Qed.

Lemma rendered_line_plain text style rendered_files :
  ~ In (Console text (Some style)) (map rendered_line rendered_files).
Proof.
  intros Hin. apply in_map_iff in Hin. destruct Hin as (file & E & _).
  discriminate E.
Qed.

Lemma rendered_line_only e rendered_files :
  In e (map rendered_line rendered_files) ->
  exists file, e = rendered_line file.
Proof.
  intros Hin. apply in_map_iff in Hin. destruct Hin as (file & E & _). eauto.
Qed.

Ltac invert_rendered :=
  repeat match goal with
         | E : print_rendered _ _ _ = _ |- _ =>
             rewrite print_rendered_run in E; inversion E; clear E
         end.

(** X14: in the three commands an error line and Abort go together.  A run
    that ends in Abort has printed its error line last, and a run that has
    printed a line in bold red has ended in Abort: no command prints an error
    and carries on. *)
Theorem errors_abort
  name config_file directory branch show_progress diff_opt w :
  announced (diff_cmd H name config_file directory branch show_progress w) /\
  announced
    (sync_cmd H name config_file directory branch diff_opt show_progress w) /\
  announced (generate H name config_file directory branch w).
Proof.
  repeat apply conj;
    match goal with
    | |- announced ?run => destruct run as [[r w'] trace] eqn:E
    end;
    unfold diff_cmd, sync_cmd, generate, load_instance, load_both,
      make_config in E;
    invert_run; invert_rendered; subst; unfold announced;
    (split;
     [ intros Hr; try discriminate Hr;
       match goal with
       | |- exists before message, ?t = _ =>
           exists (removelast t); eexists; simpl; reflexivity
       end
     | intros (text & Hin); try reflexivity; exfalso;
       repeat rewrite in_app_iff in Hin; simpl in Hin;
       repeat match goal with
              | Hin : _ \/ _ |- _ => destruct Hin as [Hin | Hin]
              | Hin : False |- _ => destruct Hin
              | Hin : In _ (map rendered_line _) |- _ =>
                  exact (rendered_line_plain _ _ _ Hin)
              | Hin : _ = Console _ _ |- _ => discriminate Hin
              end ]).
Qed.

(** X15: [generate] calls [render_adapter] only when
    [find_missing_schema_model] has found nothing missing, and prints a
    rendered file only after that call.  A run that returns has made its six
    calls in order and then printed one line for each rendered file, in the
    order [render_adapter] gave them. *)
Theorem generate_renders_when_complete name config_file directory branch w :
  let '(r, _, trace) := generate H name config_file directory branch w in
  (In (Invoke RenderAdapter) trace ->
   exists inst schema w1 w2,
     find_missing_schema_model H inst schema w1 = (Gives [], w2)) /\
  (forall file,
      In (rendered_line file) trace -> In (Invoke RenderAdapter) trace) /\
  (r = Done tt ->
   exists inst schema w1 w2 rendered_files default_branch api_token address,
     render_adapter H inst schema w1 = (Gives rendered_files, w2) /\
     trace =
     ([Invoke (GetInstance name config_file directory);
       Invoke (MakeConfig default_branch api_token);
       Invoke (MakeClient address);
       Invoke SchemaAll; Invoke FindMissingSchemaModel; Invoke RenderAdapter]
      ++ map rendered_line rendered_files)%list).
Proof.
  destruct (generate H name config_file directory branch w)
    as [[r w'] trace] eqn:E.
  unfold generate, load_instance, make_config in E.
  invert_run; invert_rendered; subst;
    (split; [|split]);
    try (intros Hr; discriminate Hr);
    try (intros Hr; do 8 eexists; split; [eassumption | reflexivity]);
    try (intros file Hin);
    try (intros Hin);
    repeat rewrite in_app_iff in *; simpl in *;
    try solve [intuition (try discriminate; eauto 10)].
Qed.

(** X16: [diff_cmd] never calls [sync].  It prints the text of the diff only
    in a run that returns, and a run that returns has loaded both sides, made
    the diff and printed its text, in this order and nothing else. *)
Theorem diff_cmd_only_reads name config_file directory branch show_progress w :
  let '(r, _, trace) :=
    diff_cmd H name config_file directory branch show_progress w in
  ~ In (Invoke Sync) trace /\
  (forall text, In (Stdout text) trace -> r = Done tt) /\
  (r = Done tt ->
   exists d w1 w2 text,
     diff_str H d w1 = (Gives text, w2) /\
     trace =
     [Invoke (GetInstance name config_file directory);
      Invoke (GetPotenda branch show_progress);
      Invoke SourceLoad; Invoke DestinationLoad; Invoke MakeDiff;
      Invoke DiffStr; Stdout text]).
Proof.
  destruct (diff_cmd H name config_file directory branch show_progress w)
    as [[r w'] trace] eqn:E.
  unfold diff_cmd, load_instance, load_both in E.
  invert_run; subst;
    (split; [|split]);
    try (intros Hr; discriminate Hr);
    try (intros Hr; do 4 eexists; split; [eassumption | reflexivity]);
    try (intros text Hin);
    try (intros Hin);
    repeat rewrite in_app_iff in *; simpl in *;
    try solve [intuition (try discriminate; eauto)].
Qed.

End CliFacts.

Section CliRuns.

Import Cli.

(** On the demo host: "bare" has an infrahub destination with empty
    settings, "export" an infrahub source without settings, "peers" no
    infrahub side. *)
Lemma generate_unbound_locals_witness :
  generate demo_host (Some "bare") None None None 0
  = (Failed (UnboundLocalError "infrahub_address"), 1,
     [Invoke (GetInstance (Some "bare") None None)]) /\
  generate demo_host (Some "export") None None None 0
  = (Failed (UnboundLocalError "infrahub_branch"), 1,
     [Invoke (GetInstance (Some "export") None None)]) /\
  generate demo_host (Some "peers") None None None 0
  = (Failed (UnboundLocalError "infrahub_address"), 1,
     [Invoke (GetInstance (Some "peers") None None)]).
Proof.
  split; [|split].
  - apply (proj1 (generate_unbound_locals demo_host (Some "bare") None None
                    None 0 1 _ ltac:(discriminate) eq_refl)); reflexivity.
  - apply (proj1 (proj2 (generate_unbound_locals demo_host (Some "export")
                           None None None 0 1 _ ltac:(discriminate) eq_refl)));
      reflexivity.
  - apply (proj2 (proj2 (generate_unbound_locals demo_host (Some "peers")
                           None None None 0 1 _ ltac:(discriminate) eq_refl)));
      reflexivity.
Defined.

(** On the demo host "lab" has settings without a branch: with [--branch dev]
    [Config] is asked for "dev". *)
Lemma generate_branch_choice_witness :
  exists chosen r w' rest,
    generate demo_host (Some "lab") None None (Some "dev") 0
    = (r, w',
       Invoke (GetInstance (Some "lab") None None)
       :: Invoke (MakeConfig chosen PNone) :: rest) /\
    chosen = PStr "dev" /\
    truthy chosen = true /\
    (rest = [] \/
     exists rest',
       rest = Invoke (MakeClient (PStr "http://localhost:8000")) :: rest').
Proof.
  exact (generate_branch_choice demo_host (Some "lab") None None (Some "dev")
           0 1 _ [("url", PStr "http://localhost:8000")]
           ltac:(discriminate) eq_refl (or_introl (conj eq_refl eq_refl))).
Defined.

(** On the demo host loading the source fails with a ValueError when the
    branch is "broken". *)
Lemma load_failure_stops_witness :
  diff_cmd demo_host (Some "lab") None None (Some "broken") true 0
  = (Failed Abort, 3,
     [Invoke (GetInstance (Some "lab") None None);
      Invoke (GetPotenda (Some "broken") true);
      Invoke SourceLoad; error_line "ValueError"]) /\
  sync_cmd demo_host (Some "lab") None None (Some "broken") true true 0
  = diff_cmd demo_host (Some "lab") None None (Some "broken") true 0.
Proof.
  exact (load_failure_stops demo_host (Some "lab") None None (Some "broken")
           true true 0 1 2 3 _ (Some "broken") "ValueError"
           ltac:(discriminate) eq_refl eq_refl eq_refl).
Defined.

End CliRuns.
